(** * tinynn: optimizers and learning-rate schedulers (core/optimizer.py)

    A shallow embedding of [core/optimizer.py].

    Numbers.  Python [float]s and the elements of numpy [float64] arrays
    are IEEE 754 binary64 numbers; they are modelled by Rocq's primitive
    [float]s, whose operations round to nearest even exactly as the
    hardware does, so decimal literals and every [+], [-], [*], [/] and
    [sqrt] below denote what Python computes.  Python [int]s are [Z].  Two
    floats are equal as numbers ([feq]) when [==] says so or both are NaN;
    this differs from identity only for [0.0] and [-0.0].

    State.  Objects the code mutates are threaded explicitly: a method
    takes the objects it can reach and returns them with its outcome, and a
    raised exception keeps every mutation made before it.

    Outside the file.  [core.tensor] and [core.nn] are modelled from their
    description; parameters and gradients are arrays of at least one
    dimension.  The C library's [pow] is a parameter ([Libm]).  Where a
    power of floats is a [complex] number the model stops
    ([ComplexResult]). *)

From Stdlib Require Import Floats ZArith List Bool Lia.
Import ListNotations.

Set Implicit Arguments.

(* Decimal literals denote the nearest binary64 number, as in Python. *)
Set Warnings "-inexact-float".

(* ================================================================== *)
(** * Part I: the model *)
(* ================================================================== *)

(** ** Python: exceptions, outcomes, numbers *)

Module Py.

(** How a call ends when it returns no value of the model's types: the
    exception classes the modelled code can raise, and [ComplexResult],
    which is no exception of Python's.  It marks an expression on floats
    whose value is a [complex] number: Python goes on with that number,
    the model, whose numbers are floats, follows it no further. *)
Inductive exn : Type :=
| ValueError
| TypeError
| AssertionError
| NotImplementedError
| OverflowError
| ZeroDivisionError
| ComplexResult.

(** The outcome of evaluating an expression or running a statement. *)
Inductive result (A : Type) : Type :=
| Ok (a : A)
| Raise (e : exn).

Arguments Ok {A} a.
Arguments Raise {A} e.

Definition is_ok {A} (r : result A) : bool :=
  match r with Ok _ => true | Raise _ => false end.

(** Statements over a mutable state [S]: the state after the statement is
    returned also when it raises. *)
Definition M (S A : Type) : Type := S -> result A * S.

Definition ret {S A} (a : A) : M S A := fun s => (Ok a, s).

Definition raise {S A} (e : exn) : M S A := fun s => (Raise e, s).

Definition bind {S A B} (c : M S A) (k : A -> M S B) : M S B :=
  fun s =>
    match c s with
    | (Ok a, s') => k a s'
    | (Raise e, s') => (Raise e, s')
    end.

Definition get {S} : M S S := fun s => (Ok s, s).

Definition lift {S A} (r : result A) : M S A := fun s => (r, s).

(** A Python [int] as a spec-level binary float with exponent 0. *)
Definition Z2SF (z : Z) : spec_float :=
  match z with
  | Z0 => S754_zero false
  | Zpos p => S754_finite false p 0
  | Zneg p => S754_finite true p 0
  end.

(** [float(z)] for an [int] [z]: the nearest binary64 number, ties to even;
    [OverflowError] when that is beyond the largest finite one. *)
Definition float_of_int (z : Z) : result float :=
  match binary_normalize prec emax z 0 false with
  | S754_infinity _ => Raise OverflowError
  | f => Ok (SF2Prim f)
  end.

(** [a / b] for two [int]s: the correctly rounded quotient;
    [OverflowError] when it is beyond the largest finite float. *)
Definition int_truediv (a b : Z) : result float :=
  if (b =? 0)%Z then Raise ZeroDivisionError
  else
    match SFdiv prec emax (Z2SF a) (Z2SF b) with
    | S754_infinity _ => Raise OverflowError
    | q => Ok (SF2Prim q)
    end.

(** [int(f)] for a [float] [f]: truncation towards zero. *)
Definition int_of_float (f : float) : result Z :=
  match Prim2SF f with
  | S754_nan => Raise ValueError
  | S754_infinity _ => Raise OverflowError
  | S754_zero _ => Ok 0%Z
  | S754_finite s m e =>
      let a := Z.shiftl (Zpos m) e in
      Ok (if s then Z.opp a else a)
  end.

(** The objects a caller may put into an untyped list argument. *)
Inductive object : Type :=
| PyInt (z : Z)
| PyFloat (f : float)
| PyNone.

(** [int(o)] *)
Definition int (o : object) : result Z :=
  match o with
  | PyInt z => Ok z
  | PyFloat f => int_of_float f
  | PyNone => Raise TypeError
  end.

(** [isinstance(o, int)] *)
Definition isinstance_int (o : object) : bool :=
  match o with PyInt _ => true | _ => false end.

(** [[f(x) for x in l]]: the elements are evaluated left to right and the
    first exception ends the comprehension. *)
Fixpoint comprehension {A B} (f : A -> result B) (l : list A) : result (list B) :=
  match l with
  | [] => Ok []
  | x :: l' =>
      match f x with
      | Raise e => Raise e
      | Ok y =>
          match comprehension f l' with
          | Raise e => Raise e
          | Ok ys => Ok (y :: ys)
          end
      end
  end.

End Py.

Import Py.

Declare Scope py_scope.
Delimit Scope py_scope with py.
Notation "x <- c ;; k" := (bind c (fun x => k))
  (at level 61, c at next level, right associativity) : py_scope.
Notation "c ;; k" := (bind c (fun _ => k))
  (at level 61, right associativity) : py_scope.

Local Open Scope py_scope.
Local Open Scope float_scope.

(** ** numpy: flat tensors, n-dimensional arrays *)

Module Np.

(** Modelled from the spec: [core.tensor.Tensor], "a fixed-shape numeric
    buffer with elementwise arithmetic".  The values that flow through
    [_compute_step] are the flat gradient, a one-dimensional [float64]
    array, and optimizer state, which starts as the Python number [0] and
    becomes an array on its first use. *)
Inductive Tensor : Type :=
| Scalar (x : float)
| Array (xs : list float).

(** A unary ufunc, or an operation with a Python scalar on one side. *)
Definition map (f : float -> float) (t : Tensor) : Tensor :=
  match t with
  | Scalar x => Scalar (f x)
  | Array xs => Array (List.map f xs)
  end.

Fixpoint zip_with (f : float -> float -> float) (xs ys : list float) : list float :=
  match xs, ys with
  | x :: xs', y :: ys' => f x y :: zip_with f xs' ys'
  | _, _ => []
  end.

(** A binary ufunc with numpy's broadcasting: a scalar or a one-element
    array stretches to the other operand, equal lengths go elementwise, and
    anything else is [ValueError: operands could not be broadcast]. *)
Definition broadcast (f : float -> float -> float) (a b : Tensor) : result Tensor :=
  match a, b with
  | Scalar x, Scalar y => Ok (Scalar (f x y))
  | Scalar x, Array ys => Ok (Array (List.map (f x) ys))
  | Array xs, Scalar y => Ok (Array (List.map (fun x => f x y) xs))
  | Array xs, Array ys =>
      if (length xs =? length ys)%nat then Ok (Array (zip_with f xs ys))
      else
        match xs, ys with
        | [x], _ => Ok (Array (List.map (f x) ys))
        | _, [y] => Ok (Array (List.map (fun x => f x y) xs))
        | _, _ => Raise ValueError
        end
  end.

Definition add := broadcast PrimFloat.add.
Definition divide := broadcast PrimFloat.div.

(** [np.square] and [np.sqrt] *)
Definition square := map (fun x => x * x).
Definition sqrt := map PrimFloat.sqrt.

(** An n-dimensional [float64] array: its shape and its elements in C
    (row-major) order. *)
Record ndarray : Type := mk_ndarray { shape : list nat; data : list float }.

(** The number of elements a shape holds. *)
Definition size_of (sh : list nat) : nat := fold_right Nat.mul 1%nat sh.

(** The arrays a network hands to the optimizer: numpy's invariant that an
    array holds as many elements as its shape says, and at least one
    dimension, as the weights and biases of every layer have. *)
Definition well_formed (a : ndarray) : Prop :=
  shape a <> [] /\ length (data a) = size_of (shape a).

(** [np.ravel(a)] *)
Definition ravel (a : ndarray) : list float := data a.

(** [np.concatenate(arrays)] of one-dimensional arrays; numpy refuses an
    empty sequence ([ValueError: need at least one array to concatenate]). *)
Definition concatenate (arrays : list (list float)) : result (list float) :=
  match arrays with
  | [] => Raise ValueError
  | _ => Ok (concat arrays)
  end.

(** What [np.prod] returns: a numpy integer, or a [float64]. *)
Inductive number : Type :=
| Int (n : nat)
| Float (f : float).

(** [np.prod(shape)] of a shape tuple.  The tuple is first made an array;
    the empty tuple becomes an empty [float64] array, so the shape [()] of a
    zero-dimensional array gives the float [1.0] and not the integer [1]. *)
Definition prod (sh : list nat) : number :=
  match sh with
  | [] => Float 1
  | _ => Int (size_of sh)
  end.

(** [v[lo:hi]] for [0 <= lo <= hi]: slicing clips to the length. *)
Definition slice (v : list float) (lo hi : nat) : list float :=
  firstn (hi - lo) (skipn lo v).

(** [v.reshape(sh)]: [ValueError] unless the sizes agree. *)
Definition reshape (v : list float) (sh : list nat) : result ndarray :=
  if (length v =? size_of sh)%nat then Ok (mk_ndarray sh v) else Raise ValueError.

(** [a += b] for [b] of the shape of [a] (here [b] has just been reshaped to
    it): elementwise addition into [a], whose shape stays. *)
Definition iadd (a b : ndarray) : ndarray :=
  mk_ndarray (shape a) (zip_with PrimFloat.add (data a) (data b)).

End Np.

Import Np.

(** Modelled from the spec: [core.nn.NeuralNet], of which the optimizer uses
    only [get_params_and_grads()], "an operation returning an ordered
    sequence of (parameter, gradient) pairs", the same sequence on both calls
    within one [step].  The parameters are distinct arrays. *)
Record NeuralNet : Type := mk_net { get_params_and_grads : list (ndarray * ndarray) }.

(** The C library's [pow], which both [np.power] and Python's [**] on floats
    call; it is not part of the repository and not an IEEE 754 basic
    operation, so the model takes it as given. *)
Class Libm : Type := pow : float -> float -> float.

(** [np.power(b, t)] for a Python float [b] and a Python int [t]: both are
    converted to [float64]. *)
Definition np_power `{Libm} (b : float) (t : Z) : float :=
  pow b (SF2Prim (binary_normalize prec emax t 0 false)).

(** [x == floor(x)] for a finite float [x]: its value is an integer. *)
Definition is_integral (x : float) : bool :=
  match Prim2SF x with
  | S754_zero _ => true
  | S754_finite _ m e => (0 <=? e)%Z || (Zpos m mod 2 ^ (- e) =? 0)%Z
  | S754_infinity _ => true
  | S754_nan => false
  end.

(** Python's [b ** x] on two floats.  For a negative finite base and a
    finite exponent that is no integer CPython hands the operands to the
    complex power ("negative numbers raised to fractional powers become
    complex") and the value is a [complex] number; every other value is a
    float, the C library's [pow] behind CPython's special cases, taken
    from [pow]. *)
Definition float_pow `{Libm} (b x : float) : result float :=
  if (b <? 0) && is_finite b && is_finite x && negb (is_integral x)
  then Raise ComplexResult
  else Ok (pow b x).

(** ** class Optimizer *)

Module Optimizer.

(** An optimizer object: the base class's field [lr] and the fields [vars]
    its subclass adds. *)
Record t (V : Type) : Type := make { lr : float; vars : V }.

Definition set_lr {V} (x : float) (self : t V) : t V := make x (vars self).
Definition set_vars {V} (v : V) (self : t V) : t V := make (lr self) v.

(** The method every subclass overrides. *)
Class Impl (V : Type) : Type := _compute_step : Tensor -> M (t V) Tensor.

(** [Optimizer.__init__(self, lr)], called by every subclass with the
    fields it adds afterwards. *)
Definition __init__ {V} (lr : float) (v : V) : result (t V) := Ok (make lr v).

(** The loop of [step]: for each pair in turn, cut the next [block] elements
    off the flat update and add them to the parameter in place. *)
Fixpoint apply_blocks (step : list float) (pointer : nat)
  (pgs : list (ndarray * ndarray)) : result unit * list (ndarray * ndarray) :=
  match pgs with
  | [] => (Ok tt, [])
  | (param, grad) :: rest =>
      match prod (shape param) with
      | Float _ => (Raise TypeError, pgs)
      | Int block =>
          match reshape (slice step pointer (pointer + block)) (shape param) with
          | Raise e => (Raise e, pgs)
          | Ok b =>
              let (r, rest') := apply_blocks step (pointer + block) rest in
              (r, (iadd param b, grad) :: rest')
          end
      end
  end.

(** [Optimizer.step(self, net)].  An update that is a number and not an
    array cannot be sliced; none of the four optimizers returns one. *)
Definition step {V} `{Impl V} : M (t V * NeuralNet) unit :=
  fun '(self, net) =>
    match concatenate (List.map (fun pg => ravel (snd pg)) (get_params_and_grads net)) with
    | Raise e => (Raise e, (self, net))
    | Ok grad =>
        match _compute_step (Array grad) self with
        | (Raise e, self') => (Raise e, (self', net))
        | (Ok (Scalar _), self') => (Raise TypeError, (self', net))
        | (Ok (Array step), self') =>
            let (r, pgs) := apply_blocks step 0 (get_params_and_grads net) in
            (r, (self', mk_net pgs))
        end
    end.

(** The base class itself adds no field and leaves [_compute_step]
    unimplemented. *)
Inductive base : Type := Base.

#[global] Instance base_impl : Impl base := fun _ => raise NotImplementedError.

End Optimizer.

(** ** class SGD *)

Module SGD.

Inductive vars : Type := Vars.

Definition __init__ (lr : float) : result (Optimizer.t vars) :=
  Optimizer.__init__ lr Vars.

Definition _compute_step (grad : Tensor) : M (Optimizer.t vars) Tensor :=
  self <- get ;;
  ret (Np.map (fun g => - Optimizer.lr self * g) grad).

#[global] Instance impl : Optimizer.Impl vars := _compute_step.

End SGD.

(** ** class Adam *)

Module Adam.

Record vars : Type := Vars {
  _b1 : float; _b2 : float; _eps : float;
  _t : Z; _m : Tensor; _v : Tensor }.

Definition set_t (x : Z) (s : vars) : vars :=
  Vars (_b1 s) (_b2 s) (_eps s) x (_m s) (_v s).
Definition set_m (x : Tensor) (s : vars) : vars :=
  Vars (_b1 s) (_b2 s) (_eps s) (_t s) x (_v s).
Definition set_v (x : Tensor) (s : vars) : vars :=
  Vars (_b1 s) (_b2 s) (_eps s) (_t s) (_m s) x.

Definition __init__ (lr beta1 beta2 epsilon : float) : result (Optimizer.t vars) :=
  Optimizer.__init__ lr (Vars beta1 beta2 epsilon 0 (Scalar 0) (Scalar 0)).

(** The defaults of the constructor's keyword arguments. *)
Definition default_lr : float := 0.001.
Definition default_beta1 : float := 0.9.
Definition default_beta2 : float := 0.999.
Definition default_epsilon : float := 1e-8.

(** The bias-corrected rate computed at counter value [t]. *)
Definition lr_t `{Libm} (lr b1 b2 : float) (t : Z) : float :=
  lr * PrimFloat.sqrt (1 - np_power b2 t) / (1 - np_power b1 t).

(** An assignment to one of the subclass's fields. *)
Definition assign (f : vars -> vars) : M (Optimizer.t vars) unit :=
  fun self => (Ok tt, Optimizer.set_vars (f (Optimizer.vars self)) self).

Definition _compute_step `{Libm} (grad : Tensor) : M (Optimizer.t vars) Tensor :=
  assign (fun s => set_t (_t s + 1) s) ;;
  self <- get ;;
  let s := Optimizer.vars self in
  let lr_t := lr_t (Optimizer.lr self) (_b1 s) (_b2 s) (_t s) in
  m <- lift (add (Np.map (fun x => _b1 s * x) (_m s))
                 (Np.map (fun g => (1 - _b1 s) * g) grad)) ;;
  assign (set_m m) ;;
  v <- lift (add (Np.map (fun x => _b2 s * x) (_v s))
                 (Np.map (fun g => (1 - _b2 s) * g) (square grad))) ;;
  assign (set_v v) ;;
  lift (divide (Np.map (fun x => - lr_t * x) m)
               (Np.map (fun x => x + _eps s) (Np.sqrt v))).

#[global] Instance impl `{Libm} : Optimizer.Impl vars := _compute_step.

End Adam.

(** ** class RMSProp *)

Module RMSProp.

Record vars : Type := Vars {
  _decay : float; _momentum : float; _eps : float;
  _ms : Tensor; _mom : Tensor }.

Definition set_ms (x : Tensor) (s : vars) : vars :=
  Vars (_decay s) (_momentum s) (_eps s) x (_mom s).
Definition set_mom (x : Tensor) (s : vars) : vars :=
  Vars (_decay s) (_momentum s) (_eps s) (_ms s) x.

Definition __init__ (lr decay momentum epsilon : float) : result (Optimizer.t vars) :=
  Optimizer.__init__ lr (Vars decay momentum epsilon (Scalar 0) (Scalar 0)).

Definition default_lr : float := 0.01.
Definition default_decay : float := 0.99.
Definition default_momentum : float := 0.
Definition default_epsilon : float := 1e-8.

Definition assign (f : vars -> vars) : M (Optimizer.t vars) unit :=
  fun self => (Ok tt, Optimizer.set_vars (f (Optimizer.vars self)) self).

Definition _compute_step (grad : Tensor) : M (Optimizer.t vars) Tensor :=
  self <- get ;;
  let s := Optimizer.vars self in
  ms <- lift (add (Np.map (fun x => _decay s * x) (_ms s))
                  (Np.map (fun g => (1 - _decay s) * g) (square grad))) ;;
  assign (set_ms ms) ;;
  q <- lift (divide (Np.map (fun g => Optimizer.lr self * g) grad)
                    (Np.sqrt (Np.map (fun x => x + _eps s) ms))) ;;
  mom <- lift (add (Np.map (fun x => _momentum s * x) (_mom s)) q) ;;
  assign (set_mom mom) ;;
  ret (Np.map PrimFloat.opp mom).

#[global] Instance impl : Optimizer.Impl vars := _compute_step.

End RMSProp.

(** ** class Momentum *)

Module Momentum.

Record vars : Type := Vars { _momentum : float; _acc : Tensor }.

Definition set_acc (x : Tensor) (s : vars) : vars := Vars (_momentum s) x.

Definition __init__ (lr momentum : float) : result (Optimizer.t vars) :=
  Optimizer.__init__ lr (Vars momentum (Scalar 0)).

Definition default_momentum : float := 0.9.

Definition assign (f : vars -> vars) : M (Optimizer.t vars) unit :=
  fun self => (Ok tt, Optimizer.set_vars (f (Optimizer.vars self)) self).

Definition _compute_step (grad : Tensor) : M (Optimizer.t vars) Tensor :=
  self <- get ;;
  let s := Optimizer.vars self in
  acc <- lift (add (Np.map (fun x => _momentum s * x) (_acc s)) grad) ;;
  assign (set_acc acc) ;;
  ret (Np.map (fun x => - Optimizer.lr self * x) acc).

#[global] Instance impl : Optimizer.Impl vars := _compute_step.

End Momentum.

(** ** class LRScheduler *)

Module LRScheduler.

(** A scheduler object: the base class's fields and the fields [params] its
    subclass adds.  The field [_optim] is a reference to the optimizer; the
    model passes the optimizer it refers to into every method and returns it,
    so a method always sees the optimizer as it is at the time of the call. *)
Record t (P : Type) : Type := make { _initial_lr : float; _t : Z; params : P }.

Definition set_t {P} (x : Z) (self : t P) : t P :=
  make (_initial_lr self) x (params self).

(** The method every subclass overrides; it reads the scheduler and,
    through [_optim], the optimizer. *)
Class Impl (P : Type) : Type :=
  _compute_lr : forall V, t P -> Optimizer.t V -> result float.

(** [get_current_lr(self)]: [self._optim.lr] *)
Definition get_current_lr {V} (_optim : Optimizer.t V) : float :=
  Optimizer.lr _optim.

(** [LRScheduler.__init__(self, optimizer)], called by every subclass with
    the fields it adds afterwards. *)
Definition __init__ {P V} (optimizer : Optimizer.t V) (p : P) : t P :=
  make (get_current_lr optimizer) 0 p.

(** [LRScheduler.step(self)] *)
Definition step {P} `{Impl P} {V} : M (t P * Optimizer.t V) float :=
  fun '(self, optim) =>
    let self := set_t (_t self + 1) self in
    match _compute_lr self optim with
    | Raise e => (Raise e, (self, optim))
    | Ok new_lr =>
        let optim := Optimizer.set_lr new_lr optim in
        (Ok (get_current_lr optim), (self, optim))
    end.

(** [n] calls of [step] in a row, as a training loop makes them, with the
    rates they returned. *)
Fixpoint calls {P} `{Impl P} {V} (n : nat) : M (t P * Optimizer.t V) (list float) :=
  match n with
  | O => ret []
  | S n' => r <- step ;; rs <- calls n' ;; ret (r :: rs)
  end.

(** The base class itself adds no field and leaves [_compute_lr]
    unimplemented. *)
Inductive base : Type := Base.

#[global] Instance base_impl : Impl base := fun _ _ _ => Raise NotImplementedError.

End LRScheduler.

(** ** class StepLR *)

Module StepLR.

Record params : Type := Params { _step_size : Z; _gamma : float }.

Definition default_gamma : float := 0.1.

Definition __init__ {V} (optimizer : Optimizer.t V) (step_size : Z) (gamma : float)
  : result (LRScheduler.t params) :=
  let self := LRScheduler.__init__ optimizer (Params step_size gamma) in
  if (1 <=? step_size)%Z then Ok self else Raise AssertionError.

Definition _compute_lr {V} (self : LRScheduler.t params) (optim : Optimizer.t V)
  : result float :=
  let p := LRScheduler.params self in
  if (_step_size p =? 0)%Z then Raise ZeroDivisionError
  else
    let decay := if (LRScheduler._t self mod _step_size p =? 0)%Z then _gamma p else 1 in
    Ok (decay * LRScheduler.get_current_lr optim).

#[global] Instance impl : LRScheduler.Impl params := @_compute_lr.

End StepLR.

(** ** class MultiStepLR *)

Module MultiStepLR.

Record params : Type := Params { _milestones : list Z; _gamma : float }.

Definition default_gamma : float := 0.1.

(** [all(x < y for x, y in zip(l[:-1], l[1:]))] *)
Definition increasing (l : list Z) : bool :=
  forallb (fun xy => (fst xy <? snd xy)%Z) (combine (removelast l) (tl l)).

Definition __init__ {V} (optimizer : Optimizer.t V) (milestones : list object)
  (gamma : float) : result (LRScheduler.t params) :=
  match comprehension int milestones with
  | Raise e => Raise e
  | Ok milestones =>
      if increasing milestones
         && forallb (fun x => isinstance_int (PyInt x)) milestones
      then Ok (LRScheduler.__init__ optimizer (Params milestones gamma))
      else Raise AssertionError
  end.

Definition _compute_lr {V} (self : LRScheduler.t params) (optim : Optimizer.t V)
  : result float :=
  let p := LRScheduler.params self in
  let decay := if existsb (Z.eqb (LRScheduler._t self)) (_milestones p) then _gamma p else 1 in
  Ok (decay * LRScheduler.get_current_lr optim).

#[global] Instance impl : LRScheduler.Impl params := @_compute_lr.

End MultiStepLR.

(** ** class ExponentialLR *)

Module ExponentialLR.

Record params : Type := Params { _decay_steps : Z; _decay_rate : float }.

(** [1 / np.e] *)
Definition default_decay_rate : float := 1 / 2.718281828459045.

Definition __init__ {V} (optimizer : Optimizer.t V) (decay_steps : Z) (decay_rate : float)
  : result (LRScheduler.t params) :=
  Ok (LRScheduler.__init__ optimizer (Params decay_steps decay_rate)).

Definition _compute_lr `{Libm} {V} (self : LRScheduler.t params) (optim : Optimizer.t V)
  : result float :=
  let p := LRScheduler.params self in
  if (LRScheduler._t self <=? _decay_steps p)%Z then
    match int_truediv (LRScheduler._t self) (_decay_steps p) with
    | Raise e => Raise e
    | Ok x =>
        match float_pow (_decay_rate p) x with
        | Raise e => Raise e
        | Ok y => Ok (LRScheduler._initial_lr self * y)
        end
    end
  else Ok (LRScheduler.get_current_lr optim).

#[global] Instance impl `{Libm} : LRScheduler.Impl params := @_compute_lr _.

End ExponentialLR.

(** ** class LinearLR *)

Module LinearLR.

Record params : Type := Params {
  _lr_delta : float; _final_lr : float; _decay_steps : Z; _start_step : Z }.

Definition default_final_lr : float := 1e-6.
Definition default_start_step : Z := 0.

Definition __init__ {V} (optimizer : Optimizer.t V) (decay_steps : Z) (final_lr : float)
  (start_step : Z) : result (LRScheduler.t params) :=
  let initial_lr := LRScheduler.get_current_lr optimizer in
  if negb (final_lr <? initial_lr) then Raise AssertionError
  else if negb (0 <? decay_steps)%Z then Raise AssertionError
  else
    match float_of_int decay_steps with
    | Raise e => Raise e
    | Ok d =>
        let lr_delta := (final_lr - initial_lr) / d in
        Ok (LRScheduler.__init__ optimizer (Params lr_delta final_lr decay_steps start_step))
    end.

Definition _compute_lr {V} (self : LRScheduler.t params) (optim : Optimizer.t V)
  : result float :=
  let p := LRScheduler.params self in
  if (_start_step p <? LRScheduler._t self)%Z then
    if (LRScheduler._t self <=? _start_step p + _decay_steps p)%Z
    then Ok (LRScheduler.get_current_lr optim + _lr_delta p)
    else Ok (LRScheduler.get_current_lr optim)
  else Ok (LRScheduler.get_current_lr optim).

#[global] Instance impl : LRScheduler.Impl params := @_compute_lr.

End LinearLR.

(** ** Vocabulary of the statements *)

(** Equality of floats as numbers: what [==] decides ([-0.0 == 0.0]),
    with NaN taken equal to NaN. *)
Definition feq (x y : float) : bool := (x =? y) || (is_nan x && is_nan y).

(** Two flat vectors are equal as numbers, element by element. *)
Definition feq_list (xs ys : list float) : Prop :=
  Forall2 (fun x y => feq x y = true) xs ys.

(** Cutting a flat vector into consecutive blocks of the given sizes. *)
Fixpoint split_by (sizes : list nat) (v : list float) : list (list float) :=
  match sizes with
  | [] => []
  | n :: sizes' => firstn n v :: split_by sizes' (skipn n v)
  end.

(** The element counts of a network's parameters, in iteration order. *)
Definition block_sizes (pgs : list (ndarray * ndarray)) : list nat :=
  List.map (fun pg => size_of (shape (fst pg))) pgs.

(** A pair as the network hands it out: both arrays well formed, the
    gradient of the parameter's shape. *)
Definition matching (pg : ndarray * ndarray) : Prop :=
  well_formed (fst pg) /\ well_formed (snd pg) /\ shape (snd pg) = shape (fst pg).

(** A parameter after [block] has been added to it in place. *)
Definition updated (pg : ndarray * ndarray) (block : list float) : ndarray * ndarray :=
  (mk_ndarray (shape (fst pg)) (zip_with PrimFloat.add (data (fst pg)) block), snd pg).

(** [_compute_step] called once per gradient of a sequence, as successive
    [step]s of a training loop call it; the flat updates it returned. *)
Fixpoint compute_steps {V} `{Optimizer.Impl V} (grads : list (list float))
  : M (Optimizer.t V) (list Tensor) :=
  match grads with
  | [] => ret []
  | g :: grads' =>
      s <- Optimizer._compute_step (Array g) ;;
      ss <- compute_steps grads' ;;
      ret (s :: ss)
  end.

(** A strictly increasing list of integers, as the words say it. *)
Fixpoint strictly_increasing (l : list Z) : Prop :=
  match l with
  | [] => True
  | x :: l' =>
      match l' with
      | [] => True
      | y :: _ => (x < y)%Z /\ strictly_increasing l'
      end
  end.

(** The sign bit of a spec-level float is clear (NaN carries none). *)
Definition sign_clear (x : spec_float) : Prop :=
  match x with
  | S754_zero s | S754_infinity s | S754_finite s _ _ => s = false
  | S754_nan => True
  end.

(** A [pow] that is right on the two exponents whose result needs no
    rounding: exponent 0 gives 1 and exponent 1 gives the base back;
    elsewhere it answers NaN.  It stands in for the platform's [pow] only
    to exhibit one that meets what the theorems assume of it. *)
Definition exact_pow : Libm :=
  fun x y => if y =? 1 then x else if y =? 0 then 1 else nan.

(** How many of the leading blocks of the given sizes [len] elements
    cover completely. *)
Fixpoint covered (sizes : list nat) (len : nat) : nat :=
  match sizes with
  | [] => O
  | n :: sizes' => if (n <=? len)%nat then S (covered sizes' (len - n)) else O
  end.

(** The number of counter values [1..n] at which a schedule fires. *)
Fixpoint hits (fires : Z -> bool) (n : nat) : nat :=
  match n with
  | O => O
  | S n' => (hits fires n' + if fires (Z.of_nat n) then 1 else 0)%nat
  end.

(** Optimizer state that goes with flat gradients of length [n]: an array
    of that length, or still the number it was created as. *)
Definition tensor_fits (n : nat) (x : Tensor) : Prop :=
  match x with
  | Scalar _ => True
  | Array xs => length xs = n
  end.

(** A spec-level float that is a zero or negative, and not NaN. *)
Definition not_positive (x : spec_float) : Prop :=
  match x with
  | S754_zero _ => True
  | S754_infinity s | S754_finite s _ _ => s = true
  | S754_nan => False
  end.

(** Every element of a tensor has the property [P]. *)
Definition tensor_all (P : float -> Prop) (x : Tensor) : Prop :=
  match x with
  | Scalar a => P a
  | Array xs => Forall P xs
  end.

(** No element of a tensor is negative or [-0.0]. *)
Definition tensor_sign_clear (x : Tensor) : Prop :=
  tensor_all (fun a => sign_clear (Prim2SF a)) x.

(** [c * state + ys], element by element, for optimizer state that goes
    with [ys]. *)
Definition decayed_sum (c : float) (state : Tensor) (ys : list float) : list float :=
  match state with
  | Scalar a => List.map (fun y => c * a + y) ys
  | Array xs => zip_with (fun a y => c * a + y) xs ys
  end.

(** A small network: a 2x2 weight and a bias of one element. *)
Definition example_net : NeuralNet :=
  mk_net [ (mk_ndarray [2; 2]%nat [1; 2; 3; 4], mk_ndarray [2; 2]%nat [0.5; 0.5; 1; 1]);
           (mk_ndarray [1]%nat [10], mk_ndarray [1]%nat [2]) ].

(* ================================================================== *)
(** * Part II: properties *)
(* ================================================================== *)

Unset Implicit Arguments.

(** ** Python's numbers *)

(** *** [int / int] does not overflow when the quotient is at most one *)

Lemma digits2_bounds : forall p : positive,
  (2 ^ (Zpos (digits2_pos p) - 1) <= Zpos p < 2 ^ Zpos (digits2_pos p))%Z.
Proof.
  induction p as [p IH|p IH|]; cbn [digits2_pos].
  - rewrite Pos2Z.inj_succ.
    replace (Z.succ (Zpos (digits2_pos p)) - 1)%Z with (Z.succ (Zpos (digits2_pos p) - 1))%Z by lia.
    rewrite !Z.pow_succ_r by lia. lia.
  - rewrite Pos2Z.inj_succ.
    replace (Z.succ (Zpos (digits2_pos p)) - 1)%Z with (Z.succ (Zpos (digits2_pos p) - 1))%Z by lia.
    rewrite !Z.pow_succ_r by lia. lia.
  - cbn. lia.
Qed.

Lemma Zdigits2_nonneg : forall m, (0 <= m -> 0 <= Zdigits2 m)%Z.
Proof. intros [|p|p] H; cbn; lia. Qed.




Lemma shr_1_bounds : forall mrs, (0 <= shr_m mrs -> 0 <= shr_m (shr_1 mrs) <= shr_m mrs)%Z.
Proof.
  intros [m r s]. destruct m as [|[p|p|]|[p|p|]]; cbn; lia.
Qed.

Lemma iter_shr_1_bounds : forall p mrs,
  (0 <= shr_m mrs -> 0 <= shr_m (SpecFloat.iter_pos shr_1 p mrs) <= shr_m mrs)%Z.
Proof.
  induction p as [p IH|p IH|]; intros mrs H; cbn [SpecFloat.iter_pos].
  - pose proof (shr_1_bounds mrs H) as H1.
    pose proof (IH _ (proj1 H1)) as H2.
    pose proof (IH _ (proj1 H2)) as H3. lia.
  - pose proof (IH _ H) as H2.
    pose proof (IH _ (proj1 H2)) as H3. lia.
  - apply shr_1_bounds, H.
Qed.

Lemma fexp_64 : forall x, fexp prec emax x = Z.max (x - 53) (-1074).
Proof. reflexivity. Qed.

Lemma shr_fexp_bounds : forall m e l, (0 <= m)%Z ->
  (0 <= shr_m (fst (shr_fexp prec emax m e l)) <= m)%Z /\
  snd (shr_fexp prec emax m e l) = Z.max e (fexp prec emax (Zdigits2 m + e)).
Proof.
  intros m e l Hm. unfold shr_fexp, shr.
  assert (Hrec : shr_m (shr_record_of_loc m l) = m) by (destruct l as [|[| |]]; reflexivity).
  destruct (fexp prec emax (Zdigits2 m + e) - e)%Z as [|n|n] eqn:En; cbn [fst snd].
  - rewrite Hrec. split; lia.
  - pose proof (iter_shr_1_bounds n (shr_record_of_loc m l)) as Hb.
    rewrite Hrec in Hb. split; [apply Hb, Hm|lia].
  - rewrite Hrec. split; lia.
Qed.

Lemma round_nearest_even_bounds : forall m l,
  (m <= round_nearest_even m l <= m + 1)%Z.
Proof.
  intros m [|[| |]]; cbn; try lia. destruct (Z.even m); lia.
Qed.




(** ** Floats as numbers: zeros, NaN and numeric equality *)

Lemma SFeqb_true : forall x y, SFeqb x y = true ->
  x = y \/ exists s s', x = S754_zero s /\ y = S754_zero s'.
Proof.
  intros [s| s| |s m e] [s'| s'| |s' m' e']; unfold SFeqb; cbn;
    try (intros _; right; eauto; fail);
    try (destruct s; discriminate); try (destruct s'; discriminate);
    try discriminate.
  - destruct s, s'; intros H; try discriminate; left; reflexivity.
  - destruct s, s'; try discriminate;
      (destruct (Z.compare_spec e e') as [He|He|He]; try discriminate;
       destruct (Pos.compare_cont Eq m m') eqn:E; cbn; try discriminate;
       intros _; left; apply (Pos.compare_eq m m') in E; subst; reflexivity).
Qed.

Lemma SFeqb_zeros : forall s s', SFeqb (S754_zero s) (S754_zero s') = true.
Proof. reflexivity. Qed.

Lemma SFeqb_refl : forall x, x <> S754_nan -> SFeqb x x = true.
Proof.
  intros [s| s| |s m e] H; unfold SFeqb; cbn; try reflexivity.
  - destruct s; reflexivity.
  - contradiction.
  - destruct s; rewrite Z.compare_refl; unfold Pos.compare_cont;
      change (Pos.compare_cont Eq m m) with (Pos.compare m m);
      rewrite Pos.compare_refl; reflexivity.
Qed.

Lemma is_zero_SF : forall x, is_zero x = true <-> exists s, Prim2SF x = S754_zero s.
Proof.
  intros x. unfold is_zero. rewrite FloatAxioms.eqb_spec.
  change (Prim2SF zero) with (S754_zero false). split.
  - intros H. apply SFeqb_true in H. destruct H as [H|(s & s' & H & _)]; eauto.
  - intros [s H]. rewrite H. reflexivity.
Qed.

Lemma is_nan_SF : forall x, is_nan x = true <-> Prim2SF x = S754_nan.
Proof.
  intros x. unfold is_nan. rewrite FloatAxioms.eqb_spec. split.
  - intros H. destruct (Prim2SF x) eqn:E; try reflexivity;
      rewrite SFeqb_refl in H by discriminate; discriminate H.
  - intros H. rewrite H. reflexivity.
Qed.

Lemma is_finite_SF : forall x, is_finite x = true <->
  (exists s, Prim2SF x = S754_zero s) \/ (exists s m e, Prim2SF x = S754_finite s m e).
Proof.
  intros x. unfold is_finite, is_nan, is_infinity.
  rewrite !FloatAxioms.eqb_spec, FloatAxioms.abs_spec. change (Prim2SF infinity) with (S754_infinity false).
  destruct (Prim2SF x) as [s| s| |s m e] eqn:E.
  - cbn. split; eauto.
  - unfold SFeqb; cbn. destruct s; cbn; split; try discriminate;
      intros [[? H]|(? & ? & ? & H)]; discriminate H.
  - cbn. split; [discriminate|]. intros [[? H]|(? & ? & ? & H)]; discriminate H.
  - rewrite SFeqb_refl by discriminate. unfold SFeqb; cbn. split; eauto.
Qed.

Lemma feq_refl : forall x, feq x x = true.
Proof. intros x. unfold feq, is_nan. destruct (x =? x); reflexivity. Qed.

Lemma feq_zeros : forall x y, is_zero x = true -> is_zero y = true -> feq x y = true.
Proof.
  intros x y Hx Hy. apply is_zero_SF in Hx, Hy. destruct Hx as [s Hx], Hy as [s' Hy].
  unfold feq. rewrite FloatAxioms.eqb_spec, Hx, Hy. reflexivity.
Qed.

Lemma feq_nans : forall x y, is_nan x = true -> is_nan y = true -> feq x y = true.
Proof. intros x y Hx Hy. unfold feq. rewrite Hx, Hy. apply orb_true_r. Qed.

(** Numerically equal floats are the same float, or two zeros. *)
Lemma feq_cases : forall x y, feq x y = true ->
  x = y \/ (is_zero x = true /\ is_zero y = true).
Proof.
  intros x y H. unfold feq in H. apply orb_true_iff in H. destruct H as [H|H].
  - rewrite FloatAxioms.eqb_spec in H. apply SFeqb_true in H. destruct H as [H|(s & s' & Hx & Hy)].
    + left. apply Prim2SF_inj, H.
    + right. split; apply is_zero_SF; eauto.
  - apply andb_true_iff in H. destruct H as [Hx Hy]. left.
    apply is_nan_SF in Hx, Hy. apply Prim2SF_inj. congruence.
Qed.

(** A zero added on the left changes nothing but, possibly, the sign of a
    zero. *)
Lemma add_zero_l : forall z y, is_zero z = true -> feq (z + y) y = true.
Proof.
  intros z y Hz. apply is_zero_SF in Hz. destruct Hz as [s Hz].
  destruct (Prim2SF y) as [s'| s'| |s' m e] eqn:Ey.
  - apply feq_zeros; apply is_zero_SF; [|eauto].
    rewrite FloatAxioms.add_spec, Hz, Ey. destruct s, s'; cbn; eauto.
  - replace (z + y) with y; [apply feq_refl|].
    apply Prim2SF_inj. rewrite FloatAxioms.add_spec, Hz, Ey. reflexivity.
  - replace (z + y) with y; [apply feq_refl|].
    apply Prim2SF_inj. rewrite FloatAxioms.add_spec, Hz, Ey. reflexivity.
  - replace (z + y) with y; [apply feq_refl|].
    apply Prim2SF_inj. rewrite FloatAxioms.add_spec, Hz, Ey. reflexivity.
Qed.

(** A finite factor times a zero is a zero. *)
Lemma mul_finite_zero : forall c z, is_finite c = true -> is_zero z = true ->
  is_zero (c * z) = true /\ is_zero (z * c) = true.
Proof.
  intros c z Hc Hz. apply is_zero_SF in Hz. destruct Hz as [s Hz].
  apply is_finite_SF in Hc.
  split; apply is_zero_SF; rewrite FloatAxioms.mul_spec, Hz;
    destruct Hc as [[s' Hc]|(s' & m & e & Hc)]; rewrite Hc; cbn; eauto.
Qed.

(** Multiplication by a fixed factor and addition of a fixed term respect
    numeric equality. *)
Lemma mul_feq : forall c x x', feq x x' = true -> feq (c * x) (c * x') = true.
Proof.
  intros c x x' H. apply feq_cases in H. destruct H as [->|[Hx Hx']]; [apply feq_refl|].
  apply is_zero_SF in Hx, Hx'. destruct Hx as [s Hx], Hx' as [s' Hx'].
  destruct (Prim2SF c) as [sc| sc| |sc m e] eqn:Ec.
  - apply feq_zeros; apply is_zero_SF; rewrite FloatAxioms.mul_spec, Ec, ?Hx, ?Hx'; cbn; eauto.
  - apply feq_nans; apply is_nan_SF; rewrite FloatAxioms.mul_spec, Ec, ?Hx, ?Hx'; reflexivity.
  - apply feq_nans; apply is_nan_SF; rewrite FloatAxioms.mul_spec, Ec; reflexivity.
  - apply feq_zeros; apply is_zero_SF; rewrite FloatAxioms.mul_spec, Ec, ?Hx, ?Hx'; cbn; eauto.
Qed.

Lemma add_feq : forall g x x', feq x x' = true -> feq (x + g) (x' + g) = true.
Proof.
  intros g x x' H. apply feq_cases in H. destruct H as [->|[Hx Hx']]; [apply feq_refl|].
  destruct (feq_cases _ _ (add_zero_l x g Hx)) as [E|[Z1 Z2]];
    destruct (feq_cases _ _ (add_zero_l x' g Hx')) as [E'|[Z1' Z2']].
  - rewrite E, E'. apply feq_refl.
  - rewrite E. apply feq_zeros; assumption.
  - rewrite E'. apply feq_zeros; assumption.
  - apply feq_zeros; assumption.
Qed.

Lemma feq_finite : forall x y, feq x y = true -> is_finite y = true -> is_finite x = true.
Proof.
  intros x y H Hy. apply feq_cases in H. destruct H as [->|[Hx _]]; [assumption|].
  apply is_finite_SF. left. apply is_zero_SF, Hx.
Qed.

Lemma feq_trans : forall x y z, feq x y = true -> feq y z = true -> feq x z = true.
Proof.
  intros x y z H1 H2. apply feq_cases in H1, H2.
  destruct H1 as [->|[Hx Hy]]; destruct H2 as [->|[Hy' Hz]];
    try apply feq_refl; apply feq_zeros; assumption.
Qed.

Lemma feq_list_refl : forall xs, feq_list xs xs.
Proof. induction xs; constructor; [apply feq_refl|assumption]. Qed.

(** ** Optimizer.step: flatten, update, unflatten *)

Lemma zip_with_length : forall f xs ys,
  length (zip_with f xs ys) = Nat.min (length xs) (length ys).
Proof.
  induction xs as [|x xs IH]; intros [|y ys]; cbn; auto.
Qed.

Lemma split_by_lengths : forall (ls : list (list float)) (tail : list float),
  split_by (List.map (@length float) ls) (concat ls ++ tail) = ls.
Proof.
  induction ls as [|l ls IH]; intros tail; [reflexivity|].
  cbn [List.map concat split_by]. rewrite <- app_assoc.
  rewrite firstn_app, firstn_all, Nat.sub_diag, firstn_O, app_nil_r.
  rewrite skipn_app, skipn_all, Nat.sub_diag, skipn_O. cbn [app].
  rewrite IH. reflexivity.
Qed.

Lemma concat_split_by : forall sizes (v : list float),
  length v = fold_right Nat.add 0%nat sizes -> concat (split_by sizes v) = v.
Proof.
  induction sizes as [|n sizes IH]; intros v H; cbn in *.
  - destruct v; [reflexivity|discriminate].
  - rewrite IH; [apply firstn_skipn|]. rewrite length_skipn. lia.
Qed.


Lemma matching_sizes : forall pgs, Forall matching pgs ->
  block_sizes pgs = List.map (@length float) (List.map (fun pg => ravel (snd pg)) pgs).
Proof.
  induction 1 as [|[p g] pgs (Hp & Hg & Hs) _ IH]; [reflexivity|].
  unfold block_sizes in *. cbn [List.map fst snd] in *. rewrite IH. f_equal.
  unfold ravel. destruct Hg as [_ Hg]. rewrite Hg, Hs. reflexivity.
Qed.

Lemma length_concat_sum : forall ls : list (list float),
  length (concat ls) = fold_right Nat.add 0%nat (List.map (@length float) ls).
Proof.
  induction ls as [|l ls IH]; [reflexivity|]. cbn. rewrite length_app, IH. reflexivity.
Qed.

(** The loop of [step] on a flat update that is long enough. *)
Lemma apply_blocks_ok : forall pgs step pointer,
  Forall matching pgs ->
  pointer + fold_right Nat.add 0%nat (block_sizes pgs) <= length step ->
  Optimizer.apply_blocks step pointer pgs
  = (Ok tt, List.map (fun pb => updated (fst pb) (snd pb))
              (combine pgs (split_by (block_sizes pgs) (skipn pointer step)))).
Proof.
  induction pgs as [|[param grad] pgs IH]; intros step pointer Hm Hlen; [reflexivity|].
  inversion Hm as [|? ? ((Hnd & Hp) & _ & _) Hm']; subst. cbn in Hnd, Hp.
  change (block_sizes ((param, grad) :: pgs))
    with (size_of (shape param) :: block_sizes pgs) in *.
  cbn [Optimizer.apply_blocks fold_right] in *.
  unfold prod. destruct (shape param) as [|d sh] eqn:Esh; [contradiction|].
  rewrite <- Esh in *. unfold reshape, slice.
  replace (pointer + size_of (shape param) - pointer)%nat with (size_of (shape param)) by lia.
  rewrite length_firstn, length_skipn.
  replace (Nat.min (size_of (shape param)) (length step - pointer)%nat)
    with (size_of (shape param)) by lia.
  rewrite Nat.eqb_refl.
  rewrite IH by (assumption || lia).
  cbn [split_by combine List.map fst snd]. rewrite skipn_skipn.
  replace (size_of (shape param) + pointer)%nat
    with (pointer + size_of (shape param))%nat by lia.
  reflexivity.
Qed.

Section OptimizerStep.

Context {V : Type} {I : Optimizer.Impl V}.

Lemma Optimizer_step_ok : forall (self self' : Optimizer.t V) (net : NeuralNet) update,
  let pgs := get_params_and_grads net in
  let g := concat (List.map (fun pg => ravel (snd pg)) pgs) in
  pgs <> [] -> Forall matching pgs ->
  Optimizer._compute_step (Array g) self = (Ok (Array update), self') ->
  length update = length g ->
  Optimizer.step (self, net)
  = (Ok tt, (self', mk_net (List.map (fun pb => updated (fst pb) (snd pb))
                              (combine pgs (split_by (block_sizes pgs) update))))).
Proof.
  intros self self' net update pgs g Hne Hm Hc Hlen.
  assert (Hcat : concatenate (List.map (fun pg => ravel (snd pg)) pgs) = Ok g).
  { unfold g. clear Hc Hlen g. clearbody pgs. destruct pgs; [contradiction|reflexivity]. }
  unfold Optimizer.step. fold pgs. rewrite Hcat, Hc.
  rewrite apply_blocks_ok; [reflexivity|assumption|].
  rewrite Hlen. unfold g. rewrite length_concat_sum, <- matching_sizes by assumption. lia.
Qed.

Lemma Optimizer_step_empty : forall (self : Optimizer.t V),
  Optimizer.step (self, mk_net []) = (Raise ValueError, (self, mk_net [])).
Proof. reflexivity. Qed.

End OptimizerStep.




(** Why [well_formed] asks for a dimension: for an array of none,
    [np.prod(())] is the float 1.0, which cannot bound a slice, and [step]
    raises [TypeError] after [_compute_step] has run. *)
Lemma Optimizer_step_zero_dimensional_raises :
  let p := mk_ndarray [] [1] in
  let g := mk_ndarray [] [0.5] in
  shape g = shape p /\ length (data p) = size_of (shape p) /\
  fst (Optimizer.step (Optimizer.make 0.1 SGD.Vars, mk_net [(p, g)])) = Raise TypeError.
Proof. repeat split. Qed.

(** ** Constructors of the optimizers *)

(** C4 (as the code has it): no optimizer constructor looks at [lr]; for
    every float [lr], positive or not, construction succeeds and stores
    [lr] unchanged. *)
Theorem optimizer_init_stores_any_lr : forall lr : float,
  Optimizer.__init__ lr Optimizer.Base = Ok (Optimizer.make lr Optimizer.Base) /\
  SGD.__init__ lr = Ok (Optimizer.make lr SGD.Vars) /\
  (forall beta1 beta2 epsilon,
      Adam.__init__ lr beta1 beta2 epsilon
      = Ok (Optimizer.make lr (Adam.Vars beta1 beta2 epsilon 0 (Scalar 0) (Scalar 0)))) /\
  (forall decay momentum epsilon,
      RMSProp.__init__ lr decay momentum epsilon
      = Ok (Optimizer.make lr (RMSProp.Vars decay momentum epsilon (Scalar 0) (Scalar 0)))) /\
  (forall momentum,
      Momentum.__init__ lr momentum
      = Ok (Optimizer.make lr (Momentum.Vars momentum (Scalar 0)))).
Proof.
  intro lr. repeat split.
Qed.

(** C4, refuted as stated: [SGD(lr=-1.0)] and [SGD(lr=0.0)] are built
    without any error. *)
Lemma optimizer_init_nonpositive_lr_not_rejected :
  (-1 <=? 0) = true /\ is_ok (SGD.__init__ (-1)) = true /\
  (0 <=? 0) = true /\ is_ok (SGD.__init__ 0) = true /\
  is_ok (Momentum.__init__ (-1) Momentum.default_momentum) = true /\
  is_ok (Adam.__init__ (-1) Adam.default_beta1 Adam.default_beta2 Adam.default_epsilon) = true /\
  is_ok (RMSProp.__init__ (-1) RMSProp.default_decay RMSProp.default_momentum
           RMSProp.default_epsilon) = true.
Proof.
  repeat split.
Qed.

(** ** SGD *)

Lemma SGD_compute_step : forall (self : Optimizer.t SGD.vars) g,
  Optimizer._compute_step (Array g) self
  = (Ok (Array (List.map (fun x => - Optimizer.lr self * x) g)), self).
Proof. reflexivity. Qed.

Lemma map_updated_combine : forall (h : ndarray * ndarray -> list float) pgs,
  List.map (fun pb => updated (fst pb) (snd pb)) (combine pgs (List.map h pgs))
  = List.map (fun pg => updated pg (h pg)) pgs.
Proof.
  induction pgs as [|pg pgs IH]; [reflexivity|]. cbn. rewrite IH. reflexivity.
Qed.

Lemma split_by_map_concat : forall (f : float -> float) pgs, Forall matching pgs ->
  split_by (block_sizes pgs)
    (List.map f (concat (List.map (fun pg => ravel (snd pg)) pgs)))
  = List.map (fun pg => List.map f (ravel (snd pg))) pgs.
Proof.
  intros f pgs Hm. rewrite matching_sizes by assumption.
  rewrite concat_map, !map_map.
  rewrite <- (app_nil_r (concat _)).
  rewrite <- (split_by_lengths (List.map (fun pg => List.map f (ravel (snd pg))) pgs) []) at 2.
  rewrite map_map. f_equal. apply map_ext. intros pg. rewrite length_map. reflexivity.
Qed.

Lemma updated_matching : forall pg b, matching pg ->
  length b = size_of (shape (fst pg)) -> matching (updated pg b).
Proof.
  intros [p g] b ((Hnd & Hp) & (Hgd & Hg) & Hs) Hb. cbn in *.
  repeat split; cbn; try assumption.
  rewrite zip_with_length, Hp, Hb. apply Nat.min_id.
Qed.

(** The loop of [step] over pairs that the update covers, followed by
    others: the first are updated, the loop goes on with the others. *)
Lemma apply_blocks_app : forall pre tail step pointer,
  Forall matching pre ->
  pointer + fold_right Nat.add 0%nat (block_sizes pre) <= length step ->
  Optimizer.apply_blocks step pointer (pre ++ tail)
  = (fst (Optimizer.apply_blocks step
            (pointer + fold_right Nat.add 0%nat (block_sizes pre)) tail),
     List.map (fun pb => updated (fst pb) (snd pb))
       (combine pre (split_by (block_sizes pre) (skipn pointer step)))
     ++ snd (Optimizer.apply_blocks step
               (pointer + fold_right Nat.add 0%nat (block_sizes pre)) tail)).
Proof.
  induction pre as [|[param grad] pre IH]; intros tail step pointer Hm Hlen.
  - cbn [app block_sizes List.map fold_right combine]. rewrite Nat.add_0_r.
    destruct (Optimizer.apply_blocks step pointer tail). reflexivity.
  - inversion Hm as [|? ? ((Hnd & Hp) & _ & _) Hm']; subst. cbn [fst] in Hnd, Hp.
    change (block_sizes ((param, grad) :: pre))
      with (size_of (shape param) :: block_sizes pre) in *.
    cbn [fold_right] in *. cbn [app Optimizer.apply_blocks]. unfold prod.
    destruct (shape param) as [|d sh] eqn:Esh; [contradiction|].
    rewrite <- Esh in *. unfold reshape, slice.
    replace (pointer + size_of (shape param) - pointer)%nat
      with (size_of (shape param)) by lia.
    rewrite length_firstn, length_skipn.
    replace (Nat.min (size_of (shape param)) (length step - pointer)%nat)
      with (size_of (shape param)) by lia.
    rewrite Nat.eqb_refl.
    rewrite (IH tail step (pointer + size_of (shape param))%nat Hm') by lia.
    rewrite Nat.add_assoc.
    cbn [split_by combine List.map fst snd app]. rewrite skipn_skipn.
    replace (size_of (shape param) + pointer)%nat
      with (pointer + size_of (shape param))%nat by lia.
    reflexivity.
Qed.

(** C8 on the code.  SGD's flat update is [-lr * g] and the optimizer
    object is the same afterwards; so [step] on a network of matching pairs
    of at least one dimension adds to every parameter [-lr] times its own
    gradient, element by element, and a second call on the same gradients
    adds the same deltas again; the call on a network without parameters
    raises.  But a parameter of no dimension gets nothing: [np.prod(())] is
    the float 1.0, the slice bound is no integer, and [step] raises
    [TypeError] there, with the parameters before it updated and this one
    and those after it as they were. *)
Theorem SGD_step_adds_minus_lr_times_gradient :
  forall (self : Optimizer.t SGD.vars),
  let lr := Optimizer.lr self in
  let delta := fun pg : ndarray * ndarray => List.map (fun x => - lr * x) (ravel (snd pg)) in
  (forall g, Optimizer._compute_step (Array g) self
             = (Ok (Array (List.map (fun x => - lr * x) g)), self)) /\
  (forall net : NeuralNet,
     let pgs := get_params_and_grads net in
     let net' := mk_net (List.map (fun pg => updated pg (delta pg)) pgs) in
     Forall matching pgs ->
     (pgs <> [] -> Optimizer.step (self, net) = (Ok tt, (self, net'))) /\
     (pgs = [] -> Optimizer.step (self, net) = (Raise ValueError, (self, net))) /\
     List.map delta (get_params_and_grads net') = List.map delta pgs /\
     (pgs <> [] ->
        Optimizer.step (self, net')
        = (Ok tt, (self, mk_net (List.map (fun pg => updated pg (delta pg))
                                   (get_params_and_grads net')))))) /\
  (forall pre p g rest, Forall matching pre -> shape p = [] ->
     Optimizer.step (self, mk_net (pre ++ (p, g) :: rest))
     = (Raise TypeError,
        (self, mk_net (List.map (fun pg => updated pg (delta pg)) pre ++ (p, g) :: rest)))) /\
  Optimizer.step (self, mk_net [(mk_ndarray [] [1], mk_ndarray [] [0.5])])
  = (Raise TypeError, (self, mk_net [(mk_ndarray [] [1], mk_ndarray [] [0.5])])).
Proof.
  intros self lr delta.
  assert (Hstep : forall n : NeuralNet,
            get_params_and_grads n <> [] -> Forall matching (get_params_and_grads n) ->
            Optimizer.step (self, n)
            = (Ok tt, (self, mk_net (List.map (fun pg => updated pg (delta pg))
                                       (get_params_and_grads n))))).
  { intros n Hne Hmn.
    rewrite (@Optimizer_step_ok _ _ self self n
               (List.map (fun x => - lr * x)
                  (concat (List.map (fun pg => ravel (snd pg)) (get_params_and_grads n)))));
      try assumption; [|apply SGD_compute_step|apply length_map].
    rewrite split_by_map_concat by assumption.
    rewrite (map_updated_combine delta). reflexivity. }
  assert (Hzero : forall pre p g rest, Forall matching pre -> shape p = [] ->
            Optimizer.step (self, mk_net (pre ++ (p, g) :: rest))
            = (Raise TypeError,
               (self, mk_net (List.map (fun pg => updated pg (delta pg)) pre
                              ++ (p, g) :: rest)))).
  { intros pre p g rest Hm Hp.
    unfold Optimizer.step. cbn [get_params_and_grads].
    assert (Hcat : concatenate (List.map (fun pg => ravel (snd pg)) (pre ++ (p, g) :: rest))
                   = Ok (concat (List.map (fun pg => ravel (snd pg)) (pre ++ (p, g) :: rest)))).
    { destruct pre; reflexivity. }
    rewrite Hcat, SGD_compute_step. fold lr.
    rewrite map_app, concat_app, map_app.
    rewrite apply_blocks_app; [|exact Hm|].
    - cbn [Optimizer.apply_blocks]. rewrite Hp. cbn [prod fst snd skipn].
      assert (Hb : split_by (block_sizes pre)
                     (List.map (fun x => - lr * x)
                        (concat (List.map (fun pg => ravel (snd pg)) pre))
                      ++ List.map (fun x => - lr * x)
                           (concat (List.map (fun pg => ravel (snd pg)) ((p, g) :: rest))))
                   = List.map delta pre).
      { rewrite matching_sizes by assumption. rewrite concat_map, !map_map.
        rewrite <- (split_by_lengths (List.map delta pre)
                      (List.map (fun x => - lr * x)
                         (concat (List.map (fun pg => ravel (snd pg)) ((p, g) :: rest))))).
        rewrite map_map. f_equal.
        apply map_ext. intros pg. unfold delta. rewrite length_map. reflexivity. }
      rewrite Hb, (map_updated_combine delta). reflexivity.
    - rewrite Nat.add_0_l, length_app, !length_map, length_concat_sum,
        <- matching_sizes by assumption. lia. }
  split; [intro g; apply SGD_compute_step|].
  split; [|split; [exact Hzero|exact (Hzero [] (mk_ndarray [] [1]) (mk_ndarray [] [0.5]) [] (Forall_nil _) eq_refl)]].
  intros net pgs net' Hm.
  split; [intro Hne; apply Hstep; assumption|].
  split.
  { intro He. destruct net as [l]. cbn in pgs. subst pgs. cbn in *. subst l. reflexivity. }
  split.
  { cbn [net' get_params_and_grads]. rewrite map_map. reflexivity. }
  intro Hne. apply Hstep.
  - cbn [net' get_params_and_grads]. clearbody pgs. destruct pgs; [contradiction|discriminate].
  - cbn [net' get_params_and_grads]. clearbody pgs. clear net' Hne.
    induction Hm as [|pg pgs Hpg _ IH]; constructor; [|exact IH].
    apply updated_matching; [assumption|].
    unfold delta. rewrite length_map. destruct pg as [p g].
    destruct Hpg as (_ & (_ & Hg) & Hs). cbn in *. unfold ravel. rewrite Hg, Hs. reflexivity.
Qed.

Lemma example_net_matching : Forall matching (get_params_and_grads example_net).
Proof.
  repeat constructor; cbn; discriminate.
Qed.

(** C8 on the example network with [lr = 0.1]. *)
Lemma SGD_step_adds_minus_lr_times_gradient_witness :
  Forall matching (get_params_and_grads example_net) /\
  Optimizer.step (Optimizer.make 0.1 SGD.Vars, example_net)
  = (Ok tt,
     (Optimizer.make 0.1 SGD.Vars,
      mk_net [ (mk_ndarray [2; 2]%nat [0.95; 1.95; 2.9; 3.9],
                mk_ndarray [2; 2]%nat [0.5; 0.5; 1; 1]);
               (mk_ndarray [1]%nat [9.8], mk_ndarray [1]%nat [2]) ])).
Proof.
  split; [exact example_net_matching|].
  rewrite (proj1 (proj1 (proj2 (SGD_step_adds_minus_lr_times_gradient
                                  (Optimizer.make 0.1 SGD.Vars)))
                    example_net example_net_matching))
    by discriminate.
  vm_compute. reflexivity.
Defined.


(** ** Momentum *)

Lemma zip_with_map_l : forall (f : float -> float -> float) (h : float -> float) xs ys,
  zip_with f (List.map h xs) ys = zip_with (fun x y => f (h x) y) xs ys.
Proof.
  induction xs as [|x xs IH]; intros [|y ys]; cbn; try reflexivity. rewrite IH. reflexivity.
Qed.

Lemma zip_with_map_r : forall (f : float -> float -> float) (h : float -> float) xs ys,
  zip_with f xs (List.map h ys) = zip_with (fun x y => f x (h y)) xs ys.
Proof.
  induction xs as [|x xs IH]; intros [|y ys]; cbn; try reflexivity. rewrite IH. reflexivity.
Qed.

Lemma zip_with_diag : forall (f : float -> float -> float) (h : float -> float) xs,
  zip_with f (List.map h xs) xs = List.map (fun x => f (h x) x) xs.
Proof.
  induction xs as [|x xs IH]; cbn; [reflexivity|]. rewrite IH. reflexivity.
Qed.

Lemma feq_list_map : forall (F G : float -> float) xs,
  (forall x, feq (F x) (G x) = true) -> feq_list (List.map F xs) (List.map G xs).
Proof.
  intros F G xs H. induction xs; constructor; [apply H|assumption].
Qed.

Lemma feq_list_map_mul : forall c xs ys, feq_list xs ys ->
  feq_list (List.map (fun x => c * x) xs) (List.map (fun y => c * y) ys).
Proof.
  intros c xs ys H. induction H; constructor; [apply mul_feq; assumption|assumption].
Qed.

Lemma compute_steps_cons : forall V (I : Optimizer.Impl V) g grads (s : Optimizer.t V),
  compute_steps (g :: grads) s =
  match Optimizer._compute_step (Array g) s with
  | (Ok u, s1) =>
      match compute_steps grads s1 with
      | (Ok us, s2) => (Ok (u :: us), s2)
      | (Raise e, s2) => (Raise e, s2)
      end
  | (Raise e, s1) => (Raise e, s1)
  end.
Proof.
  intros V I g grads s. cbn [compute_steps]. unfold bind, ret.
  destruct (Optimizer._compute_step (Array g) s) as [[u|e] s1]; [|reflexivity].
  destruct (compute_steps grads s1) as [[us|e] s2]; reflexivity.
Qed.

(** The first call: the accumulator is still the number it was created as. *)
Lemma Momentum_compute_step_scalar : forall lr momentum a g,
  Optimizer._compute_step (Array g)
    (Optimizer.make lr (Momentum.Vars momentum (Scalar a)))
  = (Ok (Array (List.map (fun x => - lr * x) (List.map (fun gi => momentum * a + gi) g))),
     Optimizer.make lr
       (Momentum.Vars momentum (Array (List.map (fun gi => momentum * a + gi) g)))).
Proof. reflexivity. Qed.

(** A later call: the accumulator is an array of the gradient's length. *)
Lemma Momentum_compute_step_array : forall lr momentum acc g,
  length acc = length g ->
  Optimizer._compute_step (Array g)
    (Optimizer.make lr (Momentum.Vars momentum (Array acc)))
  = (Ok (Array (List.map (fun x => - lr * x)
                  (zip_with (fun a gi => momentum * a + gi) acc g))),
     Optimizer.make lr
       (Momentum.Vars momentum (Array (zip_with (fun a gi => momentum * a + gi) acc g)))).
Proof.
  intros lr momentum acc g Hlen.
  unfold Optimizer._compute_step, Momentum.impl, Momentum._compute_step, bind, get, lift.
  cbn [Optimizer.vars Momentum._momentum Momentum._acc Np.map add broadcast].
  rewrite length_map, Hlen, Nat.eqb_refl, zip_with_map_l. reflexivity.
Qed.

(** Two calls with one gradient on a fresh optimizer. *)
Lemma Momentum_two_calls : forall lr momentum g self0,
  Momentum.__init__ lr momentum = Ok self0 ->
  let acc1 := List.map (fun gi => momentum * 0 + gi) g in
  let acc2 := List.map (fun gi => momentum * (momentum * 0 + gi) + gi) g in
  compute_steps [g; g] self0
  = (Ok [Array (List.map (fun x => - lr * x) acc1); Array (List.map (fun x => - lr * x) acc2)],
     Optimizer.make lr (Momentum.Vars momentum (Array acc2))).
Proof.
  intros lr momentum g self0 H acc1 acc2. inversion H; subst self0. clear H.
  rewrite compute_steps_cons, Momentum_compute_step_scalar.
  rewrite compute_steps_cons, Momentum_compute_step_array by apply length_map.
  rewrite zip_with_diag. reflexivity.
Qed.

(** C7 (as the code has it): every call sets [acc = momentum*acc + g] and
    returns [-lr*acc]; after two calls with one gradient [g] on a fresh
    optimizer whose [momentum] is finite the accumulator is, as a number,
    [momentum*g + g] in every element, and the update of the second call is
    [-lr*(momentum*g + g)]. *)
Theorem Momentum_accumulates :
  (forall lr momentum a g,
     Optimizer._compute_step (Array g)
       (Optimizer.make lr (Momentum.Vars momentum (Scalar a)))
     = (Ok (Array (List.map (fun x => - lr * x)
                     (List.map (fun gi => momentum * a + gi) g))),
        Optimizer.make lr
          (Momentum.Vars momentum (Array (List.map (fun gi => momentum * a + gi) g))))) /\
  (forall lr momentum acc g, length acc = length g ->
     Optimizer._compute_step (Array g)
       (Optimizer.make lr (Momentum.Vars momentum (Array acc)))
     = (Ok (Array (List.map (fun x => - lr * x)
                     (zip_with (fun a gi => momentum * a + gi) acc g))),
        Optimizer.make lr
          (Momentum.Vars momentum
             (Array (zip_with (fun a gi => momentum * a + gi) acc g))))) /\
  (forall lr momentum g, is_finite momentum = true ->
     exists self0 step1 step2 acc2,
       Momentum.__init__ lr momentum = Ok self0 /\
       Momentum._acc (Optimizer.vars self0) = Scalar 0 /\
       compute_steps [g; g] self0
       = (Ok [Array step1; Array step2],
          Optimizer.make lr (Momentum.Vars momentum (Array acc2))) /\
       feq_list acc2 (List.map (fun gi => momentum * gi + gi) g) /\
       step2 = List.map (fun x => - lr * x) acc2 /\
       feq_list step2 (List.map (fun gi => - lr * (momentum * gi + gi)) g)).
Proof.
  split; [exact Momentum_compute_step_scalar|].
  split; [exact Momentum_compute_step_array|].
  intros lr momentum g Hfin.
  assert (Hacc : forall gi,
            feq (momentum * (momentum * 0 + gi) + gi) (momentum * gi + gi) = true).
  { intro gi. apply add_feq, mul_feq, add_zero_l.
    apply (mul_finite_zero momentum 0 Hfin). reflexivity. }
  eexists. eexists. eexists. eexists.
  split; [reflexivity|]. split; [reflexivity|].
  split; [apply Momentum_two_calls; reflexivity|].
  split; [apply feq_list_map, Hacc|]. split; [reflexivity|].
  rewrite map_map. apply feq_list_map. intro gi. apply mul_feq, Hacc.
Qed.

(** C7, refuted as stated: with [momentum = inf] the accumulator is NaN
    after the first call and stays NaN, while [momentum*g + g] is [inf]. *)
Lemma Momentum_infinite_momentum_gives_nan :
  exists self0 s,
    Momentum.__init__ 0.1 infinity = Ok self0 /\
    compute_steps [[1]; [1]] self0 = (Ok [Array [nan]; Array [nan]], s) /\
    Momentum._acc (Optimizer.vars s) = Array [nan] /\
    infinity * 1 + 1 = infinity /\
    feq nan (infinity * 1 + 1) = false.
Proof.
  eexists. eexists. split; [reflexivity|]. split; [vm_compute; reflexivity|].
  repeat split.
Qed.

(** *** Momentum with [momentum = 0] against SGD *)

Lemma Momentum_zero_acc : forall acc g,
  length acc = length g -> Forall (fun x => is_finite x = true) acc ->
  feq_list (zip_with (fun a gi => 0 * a + gi) acc g) g.
Proof.
  induction acc as [|a acc IH]; intros [|gi g] Hlen Hfin; try discriminate; [constructor|].
  inversion Hfin; subst. cbn. constructor.
  - apply add_zero_l. apply (mul_finite_zero a 0); [assumption|reflexivity].
  - apply IH; [cbn in Hlen; congruence|assumption].
Qed.

Lemma feq_list_length : forall xs ys, feq_list xs ys -> length xs = length ys.
Proof. induction 1; cbn; congruence. Qed.

Lemma feq_list_finite : forall xs ys, feq_list xs ys ->
  Forall (fun x => is_finite x = true) ys -> Forall (fun x => is_finite x = true) xs.
Proof.
  induction 1 as [|x y xs ys Hxy _ IH]; intros Hf; constructor; inversion Hf; subst.
  - eapply feq_finite; eassumption.
  - apply IH. assumption.
Qed.

(** From any state the run can be in: the accumulator is the initial
    number 0 or an array of finite numbers of the gradients' length. *)
Lemma Momentum_zero_run : forall lr n grads acc,
  Forall (fun g => length g = n /\ Forall (fun x => is_finite x = true) g) grads ->
  acc = Scalar 0 \/
  (exists xs, acc = Array xs /\ length xs = n /\ Forall (fun x => is_finite x = true) xs) ->
  exists updates acc',
    compute_steps grads (Optimizer.make lr (Momentum.Vars 0 acc))
    = (Ok (List.map Array updates), Optimizer.make lr (Momentum.Vars 0 acc')) /\
    Forall2 feq_list updates (List.map (List.map (fun x => - lr * x)) grads) /\
    (grads = [] -> acc' = acc) /\
    (grads <> [] -> exists a, acc' = Array a /\ feq_list a (last grads [])).
Proof.
  intros lr n grads. induction grads as [|g grads IH]; intros acc Hg Hacc.
  - exists [], acc. split; [reflexivity|]. split; [constructor|].
    split; [reflexivity|]. intro H. contradiction.
  - inversion Hg as [|? ? [Hlen Hfin] Hg']; subst.
    assert (Hstep : exists acc1,
              Optimizer._compute_step (Array g) (Optimizer.make lr (Momentum.Vars 0 acc))
              = (Ok (Array (List.map (fun x => - lr * x) acc1)),
                 Optimizer.make lr (Momentum.Vars 0 (Array acc1))) /\
              feq_list acc1 g).
    { destruct Hacc as [->|(xs & -> & Hxs & Hfx)].
      - eexists. split; [apply Momentum_compute_step_scalar|].
        change (0 * 0) with 0. rewrite <- (map_id g) at 2.
        apply feq_list_map. intro gi. apply add_zero_l. reflexivity.
      - eexists. split; [apply Momentum_compute_step_array; congruence|].
        apply Momentum_zero_acc; [congruence|assumption]. }
    destruct Hstep as (acc1 & Hc & Hfeq).
    destruct (IH (Array acc1) Hg') as (updates & acc' & Hrun & Hupd & Hnil & Hlast).
    { right. exists acc1. split; [reflexivity|]. split.
      - apply (feq_list_length _ _ Hfeq).
      - eapply feq_list_finite; eassumption. }
    exists (List.map (fun x => - lr * x) acc1 :: updates), acc'. split.
    + rewrite compute_steps_cons, Hc, Hrun. reflexivity.
    + split; [cbn [List.map]; constructor; [apply feq_list_map_mul, Hfeq|exact Hupd]|].
      split; [discriminate|]. intros _.
      destruct grads as [|g' grads].
      * exists acc1. split; [apply Hnil; reflexivity|exact Hfeq].
      * destruct (Hlast ltac:(discriminate)) as (a & Ha & Hfa).
        exists a. split; [exact Ha|exact Hfa].
Qed.

Lemma SGD_run : forall lr grads,
  compute_steps grads (Optimizer.make lr SGD.Vars)
  = (Ok (List.map (fun g => Array (List.map (fun x => - lr * x) g)) grads),
     Optimizer.make lr SGD.Vars).
Proof.
  intros lr. induction grads as [|g grads IH]; [reflexivity|].
  rewrite compute_steps_cons, SGD_compute_step. cbn [Optimizer.lr].
  rewrite IH. reflexivity.
Qed.

(** *** What a gradient element that is not finite leaves behind *)

Lemma compute_steps_app : forall V (I : Optimizer.Impl V) l1 l2 (s : Optimizer.t V),
  compute_steps (l1 ++ l2) s =
  match compute_steps l1 s with
  | (Ok us, s1) =>
      match compute_steps l2 s1 with
      | (Ok vs, s2) => (Ok (us ++ vs), s2)
      | (Raise e, s2) => (Raise e, s2)
      end
  | (Raise e, s1) => (Raise e, s1)
  end.
Proof.
  intros V I. induction l1 as [|g l1 IH]; intros l2 s.
  - cbn [app compute_steps]. unfold ret.
    destruct (compute_steps l2 s) as [[vs|e] s2]; reflexivity.
  - cbn [app]. rewrite !compute_steps_cons.
    destruct (Optimizer._compute_step (Array g) s) as [[u|e] s1]; [|reflexivity].
    rewrite IH. destruct (compute_steps l1 s1) as [[us|e] s2]; [|reflexivity].
    destruct (compute_steps l2 s2) as [[vs|e] s3]; reflexivity.
Qed.

Lemma nth_map_lt : forall (f : float -> float) l i d d', i < length l ->
  nth i (List.map f l) d = f (nth i l d').
Proof.
  intros f l i d d' H. rewrite (nth_indep _ d (f d')) by (rewrite length_map; exact H).
  apply map_nth.
Qed.

Lemma nth_zip_with : forall (f : float -> float -> float) xs ys i d d1 d2,
  i < length xs -> i < length ys ->
  nth i (zip_with f xs ys) d = f (nth i xs d1) (nth i ys d2).
Proof.
  intros f. induction xs as [|x xs IH]; intros [|y ys] i d d1 d2 Hx Hy; cbn in *; try lia.
  destruct i as [|i]; [reflexivity|]. apply IH; lia.
Qed.

Lemma not_finite_SF : forall x, is_finite x = false ->
  Prim2SF x = S754_nan \/ exists s, Prim2SF x = S754_infinity s.
Proof.
  intros x H. destruct (Prim2SF x) as [s|s| |s m e] eqn:E; eauto.
  - assert (Hf : is_finite x = true) by (apply is_finite_SF; eauto). congruence.
  - assert (Hf : is_finite x = true) by (apply is_finite_SF; eauto). congruence.
Qed.

Lemma nan_not_finite : forall x, is_nan x = true -> is_finite x = false.
Proof. intros x H. unfold is_finite. rewrite H. reflexivity. Qed.

(** [0.0 * x] is NaN for [x] infinite or NaN. *)
Lemma zero_mul_not_finite : forall x, is_finite x = false -> is_nan (0 * x) = true.
Proof.
  intros x H. apply is_nan_SF. rewrite FloatAxioms.mul_spec.
  change (Prim2SF 0) with (S754_zero false).
  destruct (not_finite_SF x H) as [E|[s E]]; rewrite E; reflexivity.
Qed.

Lemma nan_add : forall a g, is_nan a = true -> is_nan (a + g) = true.
Proof.
  intros a g H. apply is_nan_SF in H. apply is_nan_SF.
  rewrite FloatAxioms.add_spec, H. reflexivity.
Qed.

Lemma nan_mul_r : forall c x, is_nan x = true -> is_nan (c * x) = true.
Proof.
  intros c x H. apply is_nan_SF in H. apply is_nan_SF.
  rewrite FloatAxioms.mul_spec, H. destruct (Prim2SF c); reflexivity.
Qed.

(** A sum with a term that is infinite or NaN is infinite or NaN. *)
Lemma add_not_finite : forall z g, is_finite g = false -> is_finite (z + g) = false.
Proof.
  intros z g H.
  destruct (is_finite (z + g)) eqn:Ef; [exfalso|reflexivity].
  apply is_finite_SF in Ef. rewrite FloatAxioms.add_spec in Ef.
  destruct (not_finite_SF g H) as [E|[s E]]; rewrite E in Ef;
    destruct (Prim2SF z) as [sz|sz| |sz mz ez]; cbn in Ef;
    try (destruct sz, s; cbn in Ef);
    destruct Ef as [[s' Ef]|(s' & m' & e' & Ef)]; discriminate Ef.
Qed.

(** Gradients of one length never make [Momentum] raise. *)
Lemma Momentum_run_lengths : forall lr momentum n grads acc,
  Forall (fun g => length g = n) grads -> tensor_fits n acc ->
  exists updates acc',
    compute_steps grads (Optimizer.make lr (Momentum.Vars momentum acc))
    = (Ok (List.map Array updates), Optimizer.make lr (Momentum.Vars momentum acc')) /\
    length updates = length grads /\ tensor_fits n acc'.
Proof.
  intros lr momentum n grads. induction grads as [|g grads IH]; intros acc Hg Hacc.
  - exists [], acc. repeat split. exact Hacc.
  - pose proof (Forall_inv Hg) as Hlen. pose proof (Forall_inv_tail Hg) as Hg'.
    cbn beta in Hlen.
    assert (Hstep : exists acc1,
              Optimizer._compute_step (Array g) (Optimizer.make lr (Momentum.Vars momentum acc))
              = (Ok (Array (List.map (fun x => - lr * x) acc1)),
                 Optimizer.make lr (Momentum.Vars momentum (Array acc1))) /\
              length acc1 = length g).
    { destruct acc as [a|xs]; cbn in Hacc.
      - eexists. split; [apply Momentum_compute_step_scalar|apply length_map].
      - eexists. split; [apply Momentum_compute_step_array; congruence|].
        rewrite zip_with_length, Hacc, Hlen. apply Nat.min_id. }
    destruct Hstep as (acc1 & Hc & Hl).
    destruct (IH (Array acc1) Hg' ltac:(cbn; congruence))
      as (updates & acc' & Hrun & Hlu & Hfit).
    exists (List.map (fun x => - lr * x) acc1 :: updates), acc'.
    split; [rewrite compute_steps_cons, Hc, Hrun; reflexivity|].
    split; [cbn; congruence|exact Hfit].
Qed.

(** Once element [i] of the accumulator is infinite or NaN, element [i] of
    every later update of [Momentum] with [momentum = 0.0] is NaN. *)
Lemma Momentum_zero_poisoned_run : forall lr n i grads xs,
  i < n -> Forall (fun g => length g = n) grads ->
  length xs = n -> is_finite (nth i xs 0) = false ->
  exists updates acc',
    compute_steps grads (Optimizer.make lr (Momentum.Vars 0 (Array xs)))
    = (Ok (List.map Array updates), Optimizer.make lr (Momentum.Vars 0 acc')) /\
    length updates = length grads /\
    Forall (fun u => is_nan (nth i u 0) = true) updates.
Proof.
  intros lr n i grads. induction grads as [|g grads IH]; intros xs Hi Hg Hxs Hbad.
  - exists [], (Array xs). repeat split. constructor.
  - pose proof (Forall_inv Hg) as Hlen. pose proof (Forall_inv_tail Hg) as Hg'.
    cbn beta in Hlen.
    set (acc1 := zip_with (fun a gi => 0 * a + gi) xs g).
    assert (Hl : length acc1 = n).
    { unfold acc1. rewrite zip_with_length, Hxs, Hlen. apply Nat.min_id. }
    assert (Hnan : is_nan (nth i acc1 0) = true).
    { unfold acc1. rewrite (nth_zip_with _ xs g i 0 0 0) by lia.
      apply nan_add, zero_mul_not_finite, Hbad. }
    destruct (IH acc1 Hi Hg' Hl (nan_not_finite _ Hnan))
      as (updates & acc' & Hrun & Hlu & Hall).
    exists (List.map (fun x => - lr * x) acc1 :: updates), acc'.
    split.
    + rewrite compute_steps_cons.
      rewrite (Momentum_compute_step_array lr 0 xs g ltac:(congruence)). fold acc1.
      rewrite Hrun. reflexivity.
    + split; [cbn; congruence|]. constructor; [|exact Hall].
      rewrite (nth_map_lt _ acc1 i 0 0) by lia. apply nan_mul_r, Hnan.
Qed.

(** C10 (as the code has it): on every sequence of flat gradients of one
    length whose elements are all finite, Momentum with [momentum = 0.0]
    returns at every call an update that is, as a number, SGD's [-lr * g]
    in every element, and its accumulator is, as a number, the gradient of
    the last call.  And on every sequence of flat gradients of one length:
    after a call whose gradient has an infinite or NaN element, that
    element of every later update of Momentum is NaN, while SGD's updates
    are [-lr * g] throughout. *)
Theorem Momentum_zero_matches_SGD_on_finite_gradients :
  forall (lr : float) (n : nat),
  (forall grads : list (list float),
     Forall (fun g => length g = n /\ Forall (fun x => is_finite x = true) g) grads ->
     exists momentum0 sgd0 updates acc s,
       Momentum.__init__ lr 0 = Ok momentum0 /\
       SGD.__init__ lr = Ok sgd0 /\
       compute_steps grads momentum0
       = (Ok (List.map Array updates), Optimizer.make lr (Momentum.Vars 0 acc)) /\
       compute_steps grads sgd0
       = (Ok (List.map (fun g => Array (List.map (fun x => - lr * x) g)) grads), s) /\
       Forall2 feq_list updates (List.map (List.map (fun x => - lr * x)) grads) /\
       (grads <> [] -> exists a, acc = Array a /\ feq_list a (last grads []))) /\
  (forall (before : list (list float)) (bad : list float) (later : list (list float))
          (i : nat),
     Forall (fun g => length g = n) (before ++ bad :: later) ->
     i < n -> is_finite (nth i bad 0) = false ->
     exists momentum0 sgd0 ups_before up_bad ups_later m s,
       Momentum.__init__ lr 0 = Ok momentum0 /\
       SGD.__init__ lr = Ok sgd0 /\
       compute_steps (before ++ bad :: later) momentum0
       = (Ok (List.map Array (ups_before ++ up_bad :: ups_later)), m) /\
       length ups_before = length before /\
       length ups_later = length later /\
       Forall (fun u => is_nan (nth i u 0) = true) ups_later /\
       compute_steps (before ++ bad :: later) sgd0
       = (Ok (List.map (fun g => Array (List.map (fun x => - lr * x) g))
                (before ++ bad :: later)), s)).
Proof.
  intros lr n. split.
  - intros grads Hg.
    destruct (Momentum_zero_run lr n grads (Scalar 0) Hg (or_introl eq_refl))
      as (updates & acc & Hrun & Hupd & _ & Hlast).
    eexists. eexists. exists updates, acc. eexists.
    split; [reflexivity|]. split; [reflexivity|]. split; [exact Hrun|].
    split; [apply SGD_run|]. split; [exact Hupd|exact Hlast].
  - intros before bad later i Hall Hi Hbad.
    apply Forall_app in Hall. destruct Hall as [Hb Hrest].
    pose proof (Forall_inv Hrest) as Hlbad. pose proof (Forall_inv_tail Hrest) as Hlater.
    cbn beta in Hlbad.
    destruct (Momentum_run_lengths lr 0 n before (Scalar 0) Hb Logic.I)
      as (ups_before & acc & Hrun1 & Hl1 & Hfit).
    assert (Hstep : exists acc1,
              Optimizer._compute_step (Array bad) (Optimizer.make lr (Momentum.Vars 0 acc))
              = (Ok (Array (List.map (fun x => - lr * x) acc1)),
                 Optimizer.make lr (Momentum.Vars 0 (Array acc1))) /\
              length acc1 = n /\ is_finite (nth i acc1 0) = false).
    { destruct acc as [a|xs]; cbn in Hfit.
      - eexists. split; [apply Momentum_compute_step_scalar|].
        split; [rewrite length_map; exact Hlbad|].
        rewrite (nth_map_lt _ bad i 0 0) by lia. apply add_not_finite, Hbad.
      - eexists. split; [apply Momentum_compute_step_array; congruence|].
        split; [rewrite zip_with_length, Hfit, Hlbad; apply Nat.min_id|].
        rewrite (nth_zip_with _ xs bad i 0 0 0) by lia. apply add_not_finite, Hbad. }
    destruct Hstep as (acc1 & Hc & Hl & Hpoison).
    destruct (Momentum_zero_poisoned_run lr n i later acc1 Hi Hlater Hl Hpoison)
      as (ups_later & acc' & Hrun2 & Hl2 & Hnan).
    eexists. eexists. exists ups_before, (List.map (fun x => - lr * x) acc1), ups_later.
    eexists. eexists.
    split; [reflexivity|]. split; [reflexivity|]. split.
    + rewrite compute_steps_app. unfold Momentum.__init__, Optimizer.__init__ in *.
      rewrite Hrun1, compute_steps_cons, Hc, Hrun2.
      rewrite map_app. reflexivity.
    + split; [exact Hl1|]. split; [exact Hl2|]. split; [exact Hnan|apply SGD_run].
Qed.

(** C10 on two finite gradients of length two. *)
Lemma Momentum_zero_matches_SGD_on_finite_gradients_witness :
  Forall (fun g => length g = 2%nat /\ Forall (fun x => is_finite x = true) g)
    [[1; -2]; [0.5; 4]] /\
  exists momentum0 sgd0 updates acc s,
    Momentum.__init__ 0.1 0 = Ok momentum0 /\
    SGD.__init__ 0.1 = Ok sgd0 /\
    compute_steps [[1; -2]; [0.5; 4]] momentum0
    = (Ok (List.map Array updates), Optimizer.make 0.1 (Momentum.Vars 0 acc)) /\
    compute_steps [[1; -2]; [0.5; 4]] sgd0
    = (Ok (List.map (fun g => Array (List.map (fun x => - 0.1 * x) g)) [[1; -2]; [0.5; 4]]), s) /\
    Forall2 feq_list updates (List.map (List.map (fun x => - 0.1 * x)) [[1; -2]; [0.5; 4]]) /\
    ([[1; -2]; [0.5; 4]] <> [] -> exists a, acc = Array a /\ feq_list a [0.5; 4]).
Proof.
  assert (H : Forall (fun g => length g = 2%nat /\ Forall (fun x => is_finite x = true) g)
                [[1; -2]; [0.5; 4]]).
  { repeat constructor. }
  split; [exact H|].
  exact (proj1 (Momentum_zero_matches_SGD_on_finite_gradients 0.1 2) [[1; -2]; [0.5; 4]] H).
Defined.

(** C10, refuted as stated: after a gradient with an infinite element the
    accumulator is infinite, [0.0 * inf] is NaN, and Momentum's next update
    is NaN where SGD's is [-lr * g]. *)
Lemma Momentum_zero_differs_from_SGD_after_inf :
  exists momentum0 sgd0 m s,
    Momentum.__init__ 0.1 0 = Ok momentum0 /\
    SGD.__init__ 0.1 = Ok sgd0 /\
    compute_steps [[infinity]; [1]] momentum0
    = (Ok [Array [neg_infinity]; Array [nan]], m) /\
    compute_steps [[infinity]; [1]] sgd0
    = (Ok [Array [neg_infinity]; Array [-0.1]], s) /\
    feq nan (-0.1) = false.
Proof.
  do 4 eexists. split; [reflexivity|]. split; [reflexivity|].
  split; [vm_compute; reflexivity|]. split; [vm_compute; reflexivity|reflexivity].
Qed.

(** ** Adam *)

Lemma binary_round_aux_sign_clear : forall m e l,
  sign_clear (binary_round_aux prec emax false m e l).
Proof.
  intros m e l. unfold binary_round_aux.
  destruct (shr_fexp prec emax m e l) as [mrs1 e1].
  destruct (shr_fexp prec emax _ e1 loc_Exact) as [mrs2 e2].
  destruct (shr_m mrs2); cbn; auto. destruct (_ <=? _)%Z; reflexivity.
Qed.

Lemma SFmul_square_sign_clear : forall x, sign_clear (SFmul prec emax x x).
Proof.
  intros [s| s| |s m e]; cbn; try apply xorb_nilpotent; auto.
  rewrite xorb_nilpotent. apply binary_round_aux_sign_clear.
Qed.

Lemma SFmul_sign_clear : forall x y, sign_clear x -> sign_clear y ->
  sign_clear (SFmul prec emax x y).
Proof.
  intros [s| s| |s m e] [s'| s'| |s' m' e']; cbn; intros; subst; auto.
  apply binary_round_aux_sign_clear.
Qed.

(** [0.0 + y] is [y] itself unless [y] is [-0.0]. *)
Lemma add_zero_sign_clear : forall y, sign_clear (Prim2SF y) -> 0 + y = y.
Proof.
  intros y H. apply Prim2SF_inj. rewrite FloatAxioms.add_spec.
  change (Prim2SF 0) with (S754_zero false).
  destruct (Prim2SF y) as [s| s| |s m e]; cbn in *; subst; reflexivity.
Qed.

Lemma scaled_square_sign_clear : forall c g, sign_clear (Prim2SF c) ->
  sign_clear (Prim2SF (c * (g * g))).
Proof.
  intros c g Hc. rewrite !FloatAxioms.mul_spec.
  apply SFmul_sign_clear; [assumption|apply SFmul_square_sign_clear].
Qed.

Section AdamSteps.

Context {L : Libm}.

Lemma broadcast_arrays : forall f xs ys, length xs = length ys ->
  broadcast f (Array xs) (Array ys) = Ok (Array (zip_with f xs ys)).
Proof.
  intros f xs ys H. unfold broadcast. rewrite H, Nat.eqb_refl. reflexivity.
Qed.

(** The first call: both moments are still the number 0. *)
Lemma Adam_compute_step_first : forall lr b1 b2 eps g,
  let lr_1 := Adam.lr_t lr b1 b2 1 in
  let m := List.map (fun gi => b1 * 0 + (1 - b1) * gi) g in
  let v := List.map (fun gi => b2 * 0 + (1 - b2) * (gi * gi)) g in
  Optimizer._compute_step (Array g)
    (Optimizer.make lr (Adam.Vars b1 b2 eps 0 (Scalar 0) (Scalar 0)))
  = (Ok (Array (zip_with (fun mi vi => - lr_1 * mi / (PrimFloat.sqrt vi + eps)) m v)),
     Optimizer.make lr (Adam.Vars b1 b2 eps 1 (Array m) (Array v))).
Proof.
  intros lr b1 b2 eps g lr_1 m v.
  unfold Optimizer._compute_step, Adam.impl, Adam._compute_step, Adam.assign,
    bind, get, lift.
  cbn [Optimizer.vars Optimizer.set_vars Optimizer.lr Adam.set_t Adam.set_m Adam.set_v
       Adam._b1 Adam._b2 Adam._eps Adam._t Adam._m Adam._v
       Np.map add divide square Np.sqrt broadcast Z.add Pos.add].
  rewrite !length_map, Nat.eqb_refl, !map_map.
  rewrite zip_with_map_l, zip_with_map_r.
  unfold m, v, lr_1. rewrite zip_with_map_l, zip_with_map_r. reflexivity.
Qed.

(** A later call: both moments are arrays of the gradient's length. *)
Lemma Adam_compute_step_array : forall lr b1 b2 eps t ms vs g,
  length ms = length g -> length vs = length g ->
  let lr_t := Adam.lr_t lr b1 b2 (t + 1) in
  let m := zip_with (fun mi gi => b1 * mi + (1 - b1) * gi) ms g in
  let v := zip_with (fun vi gi => b2 * vi + (1 - b2) * (gi * gi)) vs g in
  Optimizer._compute_step (Array g)
    (Optimizer.make lr (Adam.Vars b1 b2 eps t (Array ms) (Array vs)))
  = (Ok (Array (zip_with (fun mi vi => - lr_t * mi / (PrimFloat.sqrt vi + eps)) m v)),
     Optimizer.make lr (Adam.Vars b1 b2 eps (t + 1) (Array m) (Array v))).
Proof.
  intros lr b1 b2 eps t ms vs g Hm Hv lr_t m v.
  unfold Optimizer._compute_step, Adam.impl, Adam._compute_step, Adam.assign,
    bind, get, lift.
  cbn [Optimizer.vars Optimizer.set_vars Optimizer.lr Adam.set_t Adam.set_m Adam.set_v
       Adam._b1 Adam._b2 Adam._eps Adam._t Adam._m Adam._v Np.map square Np.sqrt].
  unfold add. rewrite broadcast_arrays by (rewrite !length_map; assumption).
  rewrite broadcast_arrays by (rewrite !length_map; assumption).
  cbn [Optimizer.vars Optimizer.set_vars Optimizer.lr Adam.set_t Adam.set_m Adam.set_v
       Adam._b1 Adam._b2 Adam._eps Adam._t Adam._m Adam._v Np.map square Np.sqrt].
  unfold divide. rewrite broadcast_arrays
    by (rewrite !length_map, !zip_with_length, !length_map, Hm, Hv; reflexivity).
  rewrite !map_map, !zip_with_map_l, !zip_with_map_r. reflexivity.
Qed.

End AdamSteps.

(** C5: for [beta1 = 0.9] and [beta2 = 0.999], on the first call [t] becomes
    1, the rate used is [lr*sqrt(1-beta2)/(1-beta1)], the first moment is, as
    a number, [(1-beta1)*g] in every element, the second moment is
    [(1-beta2)*g*g], and the update returned is [-lr_t*m/(sqrt(v)+eps)]
    computed from these moments.  Later calls follow the same rule from
    the stored moments.  The rate needs of the platform's [pow] that
    [pow(x, 1.0)] is [x]. *)
Theorem Adam_first_step : forall (L : Libm),
  (forall x : float, pow x 1 = x) ->
  forall (lr eps : float) (g : list float),
  let beta1 := 0.9 in
  let beta2 := 0.999 in
  let lr_1 := lr * PrimFloat.sqrt (1 - beta2) / (1 - beta1) in
  (exists self0 m v,
     Adam.__init__ lr beta1 beta2 eps = Ok self0 /\
     Optimizer.vars self0 = Adam.Vars beta1 beta2 eps 0 (Scalar 0) (Scalar 0) /\
     Adam.lr_t lr beta1 beta2 1 = lr_1 /\
     Optimizer._compute_step (Array g) self0
     = (Ok (Array (zip_with (fun mi vi => - lr_1 * mi / (PrimFloat.sqrt vi + eps)) m v)),
        Optimizer.make lr (Adam.Vars beta1 beta2 eps 1 (Array m) (Array v))) /\
     feq_list m (List.map (fun gi => (1 - beta1) * gi) g) /\
     v = List.map (fun gi => (1 - beta2) * (gi * gi)) g) /\
  (forall b1 b2 t ms vs,
     length ms = length g -> length vs = length g ->
     let lr_t := Adam.lr_t lr b1 b2 (t + 1) in
     let m := zip_with (fun mi gi => b1 * mi + (1 - b1) * gi) ms g in
     let v := zip_with (fun vi gi => b2 * vi + (1 - b2) * (gi * gi)) vs g in
     Optimizer._compute_step (Array g)
       (Optimizer.make lr (Adam.Vars b1 b2 eps t (Array ms) (Array vs)))
     = (Ok (Array (zip_with (fun mi vi => - lr_t * mi / (PrimFloat.sqrt vi + eps)) m v)),
        Optimizer.make lr (Adam.Vars b1 b2 eps (t + 1) (Array m) (Array v)))).
Proof.
  intros L pow_one lr eps g beta1 beta2 lr_1.
  split; [|intros; apply Adam_compute_step_array; assumption].
  assert (Hlr : Adam.lr_t lr beta1 beta2 1 = lr_1).
  { unfold Adam.lr_t, np_power.
    change (SF2Prim (binary_normalize prec emax 1 0 false)) with 1.
    rewrite !pow_one. reflexivity. }
  eexists. eexists. eexists.
  split; [reflexivity|]. split; [reflexivity|]. split; [exact Hlr|].
  split; [rewrite <- Hlr; apply Adam_compute_step_first|].
  split.
  - apply feq_list_map. intro gi. change (beta1 * 0) with 0.
    apply add_zero_l. reflexivity.
  - apply map_ext. intro gi. change (beta2 * 0) with 0.
    apply add_zero_sign_clear, scaled_square_sign_clear.
    vm_compute. reflexivity.
Qed.

(** C5 at [exact_pow], with the default [lr] and [epsilon] and a gradient
    of two elements. *)
Lemma Adam_first_step_witness :
  (forall x : float, @pow exact_pow x 1 = x) /\
  exists self0 m v,
    Adam.__init__ 0.001 0.9 0.999 1e-8 = Ok self0 /\
    Optimizer.vars self0 = Adam.Vars 0.9 0.999 1e-8 0 (Scalar 0) (Scalar 0) /\
    @Adam.lr_t exact_pow 0.001 0.9 0.999 1
    = 0.001 * PrimFloat.sqrt (1 - 0.999) / (1 - 0.9) /\
    @Optimizer._compute_step _ (@Adam.impl exact_pow) (Array [1; -2]) self0
    = (Ok (Array (zip_with
                    (fun mi vi => - (0.001 * PrimFloat.sqrt (1 - 0.999) / (1 - 0.9)) * mi
                                  / (PrimFloat.sqrt vi + 1e-8)) m v)),
       Optimizer.make 0.001 (Adam.Vars 0.9 0.999 1e-8 1 (Array m) (Array v))) /\
    feq_list m (List.map (fun gi => (1 - 0.9) * gi) [1; -2]) /\
    v = List.map (fun gi => (1 - 0.999) * (gi * gi)) [1; -2].
Proof.
  split; [intro x; reflexivity|].
  exact (proj1 (Adam_first_step exact_pow (fun x => eq_refl) 0.001 1e-8 [1; -2])).
Defined.

(** ** RMSProp *)

(** The first call: both buffers are still the number 0. *)
Lemma RMSProp_compute_step_first : forall lr decay momentum eps g,
  let ms := List.map (fun gi => decay * 0 + (1 - decay) * (gi * gi)) g in
  let mom := zip_with (fun gi msi => momentum * 0 + lr * gi / PrimFloat.sqrt (msi + eps)) g ms in
  Optimizer._compute_step (Array g)
    (Optimizer.make lr (RMSProp.Vars decay momentum eps (Scalar 0) (Scalar 0)))
  = (Ok (Array (List.map PrimFloat.opp mom)),
     Optimizer.make lr (RMSProp.Vars decay momentum eps (Array ms) (Array mom))).
Proof.
  intros lr decay momentum eps g ms mom.
  unfold Optimizer._compute_step, RMSProp.impl, RMSProp._compute_step, RMSProp.assign,
    bind, get, lift, ret.
  cbn [Optimizer.vars Optimizer.set_vars Optimizer.lr RMSProp.set_ms RMSProp.set_mom
       RMSProp._decay RMSProp._momentum RMSProp._eps RMSProp._ms RMSProp._mom
       Np.map square Np.sqrt add broadcast].
  unfold divide. rewrite broadcast_arrays by (rewrite !length_map; reflexivity).
  cbn [Optimizer.vars Optimizer.set_vars Optimizer.lr RMSProp.set_ms RMSProp.set_mom
       RMSProp._decay RMSProp._momentum RMSProp._eps RMSProp._ms RMSProp._mom
       Np.map add broadcast].
  unfold mom, ms.
  rewrite !map_map, !zip_with_map_l, !zip_with_map_r.
  assert (Hz : forall (F : float -> float -> float) (h : float -> float) xs ys,
             List.map h (zip_with F xs ys) = zip_with (fun x y => h (F x y)) xs ys).
  { induction xs as [|x xs IH]; intros [|y ys]; cbn; try reflexivity. rewrite IH. reflexivity. }
  rewrite !Hz. reflexivity.
Qed.

(** On a fresh optimizer of each kind the flat update is an array of the
    flat gradient's length. *)
Lemma fresh_compute_step_length : forall (L : Libm) (g : list float),
  (forall lr self, SGD.__init__ lr = Ok self ->
     exists u s, Optimizer._compute_step (Array g) self = (Ok (Array u), s) /\
                 length u = length g) /\
  (forall lr momentum self, Momentum.__init__ lr momentum = Ok self ->
     exists u s, Optimizer._compute_step (Array g) self = (Ok (Array u), s) /\
                 length u = length g) /\
  (forall lr b1 b2 eps self, Adam.__init__ lr b1 b2 eps = Ok self ->
     exists u s, Optimizer._compute_step (Array g) self = (Ok (Array u), s) /\
                 length u = length g) /\
  (forall lr decay momentum eps self, RMSProp.__init__ lr decay momentum eps = Ok self ->
     exists u s, Optimizer._compute_step (Array g) self = (Ok (Array u), s) /\
                 length u = length g).
Proof.
  intros L g. repeat split; intros.
  - inversion H; subst. eexists. eexists. split; [apply SGD_compute_step|].
    apply length_map.
  - inversion H; subst. eexists. eexists.
    split; [apply Momentum_compute_step_scalar|]. rewrite !length_map. reflexivity.
  - inversion H; subst. eexists. eexists.
    split; [apply Adam_compute_step_first|].
    rewrite zip_with_length, !length_map. apply Nat.min_id.
  - inversion H; subst. eexists. eexists.
    split; [apply RMSProp_compute_step_first|].
    rewrite length_map, zip_with_length, length_map. apply Nat.min_id.
Qed.

(** ** Schedulers: the counter and the rate *)

Section SchedulerBase.

Context {P : Type} {I : LRScheduler.Impl P} {V : Type}.

Lemma set_lr_same : forall (optim : Optimizer.t V),
  Optimizer.set_lr (Optimizer.lr optim) optim = optim.
Proof. intros [l v]. reflexivity. Qed.

(** One call of [step], by the outcome of [_compute_lr]. *)
Lemma step_outcome : forall (self : LRScheduler.t P) (optim : Optimizer.t V),
  let self1 := LRScheduler.set_t (LRScheduler._t self + 1) self in
  match LRScheduler._compute_lr self1 optim with
  | Ok new_lr =>
      LRScheduler.step (self, optim)
      = (Ok new_lr, (self1, Optimizer.set_lr new_lr optim))
  | Raise e => LRScheduler.step (self, optim) = (Raise e, (self1, optim))
  end.
Proof.
  intros self optim self1. unfold LRScheduler.step. fold self1.
  destruct (LRScheduler._compute_lr self1 optim); reflexivity.
Qed.


Lemma calls_S : forall n (s : LRScheduler.t P * Optimizer.t V),
  LRScheduler.calls (S n) s =
  match LRScheduler.step s with
  | (Ok r, s1) =>
      match LRScheduler.calls n s1 with
      | (Ok rs, s2) => (Ok (r :: rs), s2)
      | (Raise e, s2) => (Raise e, s2)
      end
  | (Raise e, s1) => (Raise e, s1)
  end.
Proof.
  intros n s. cbn [LRScheduler.calls]. unfold bind, ret.
  destruct (LRScheduler.step s) as [[r|e] s1]; [|reflexivity].
  destruct (LRScheduler.calls n s1) as [[rs|e] s2]; reflexivity.
Qed.




End SchedulerBase.

Section SchedulerCalls.

Context {P : Type} {I : LRScheduler.Impl P} {V : Type}.

(** The calls one after the other: [n + 1] calls are [n] calls and one more. *)
Lemma calls_snoc : forall n (s : LRScheduler.t P * Optimizer.t V),
  LRScheduler.calls (S n) s =
  match LRScheduler.calls n s with
  | (Ok rs, s1) =>
      match LRScheduler.step s1 with
      | (Ok r, s2) => (Ok (rs ++ [r]), s2)
      | (Raise e, s2) => (Raise e, s2)
      end
  | (Raise e, s1) => (Raise e, s1)
  end.
Proof.
  induction n as [|n IH]; intros s.
  - rewrite calls_S. cbn [LRScheduler.calls]. unfold ret.
    destruct (LRScheduler.step s) as [[r|e] s1]; reflexivity.
  - rewrite calls_S. rewrite (calls_S n s).
    destruct (LRScheduler.step s) as [[r|e] s1]; [|reflexivity].
    rewrite IH.
    destruct (LRScheduler.calls n s1) as [[rs|e] s2]; [|reflexivity].
    destruct (LRScheduler.step s2) as [[r'|e] s3]; reflexivity.
Qed.

End SchedulerCalls.

(** *** The four schedulers never raise *)











Section SchedulerCallsAdd.

Context {P : Type} {I : LRScheduler.Impl P} {V : Type}.

Lemma calls_add_state : forall a b (s : LRScheduler.t P * Optimizer.t V),
  is_ok (fst (LRScheduler.calls a s)) = true ->
  snd (LRScheduler.calls (a + b) s)
  = snd (LRScheduler.calls b (snd (LRScheduler.calls a s))).
Proof.
  induction a as [|a IH]; intros b s Hok.
  - reflexivity.
  - change (S a + b)%nat with (S (a + b)). rewrite calls_S in Hok. rewrite !calls_S.
    destruct (LRScheduler.step s) as [[r|e] s1]; [|discriminate Hok].
    specialize (IH b s1).
    destruct (LRScheduler.calls a s1) as [[rs|e] s2]; [|discriminate Hok].
    cbn [fst snd] in *. rewrite <- IH by reflexivity.
    destruct (LRScheduler.calls (a + b) s1) as [[rs'|e] s3]; reflexivity.
Qed.

End SchedulerCallsAdd.

(** ** LinearLR *)

Lemma LinearLR_step : forall V (self : LRScheduler.t LinearLR.params) (optim : Optimizer.t V),
  let p := LRScheduler.params self in
  let t := (LRScheduler._t self + 1)%Z in
  let self1 := LRScheduler.set_t t self in
  ((t <= LinearLR._start_step p)%Z ->
     LRScheduler.step (self, optim) = (Ok (Optimizer.lr optim), (self1, optim))) /\
  ((LinearLR._start_step p < t <= LinearLR._start_step p + LinearLR._decay_steps p)%Z ->
     LRScheduler.step (self, optim)
     = (Ok (Optimizer.lr optim + LinearLR._lr_delta p),
        (self1, Optimizer.set_lr (Optimizer.lr optim + LinearLR._lr_delta p) optim))) /\
  ((LinearLR._start_step p + LinearLR._decay_steps p < t)%Z ->
     LRScheduler.step (self, optim) = (Ok (Optimizer.lr optim), (self1, optim))).
Proof.
  intros V self optim p t self1.
  unfold LRScheduler.step, LRScheduler._compute_lr, LinearLR.impl, LinearLR._compute_lr.
  fold t. fold self1. cbn [LRScheduler.params LRScheduler.set_t LRScheduler._t self1].
  fold p. unfold LRScheduler.get_current_lr.
  destruct (Z.ltb_spec (LinearLR._start_step p) t);
    [destruct (Z.leb_spec t (LinearLR._start_step p + LinearLR._decay_steps p))|];
    repeat split; intros; try lia; cbn; rewrite ?set_lr_same; reflexivity.
Qed.

(** Past the ramp, calls leave the optimizer as it is. *)
Lemma LinearLR_frozen : forall V k (self : LRScheduler.t LinearLR.params) (optim : Optimizer.t V),
  (LinearLR._start_step (LRScheduler.params self)
   + LinearLR._decay_steps (LRScheduler.params self) <= LRScheduler._t self)%Z ->
  snd (snd (LRScheduler.calls k (self, optim))) = optim.
Proof.
  intros V. induction k as [|k IH]; intros self optim H.
  - reflexivity.
  - rewrite calls_S.
    destruct (LinearLR_step V self optim) as (_ & _ & H3). cbn zeta in H3.
    rewrite H3 by lia.
    specialize (IH (LRScheduler.set_t (LRScheduler._t self + 1) self) optim).
    destruct (LRScheduler.calls k _) as [[rs|e] s2]; cbn [fst snd] in *; apply IH; cbn; lia.
Qed.

(** C6 (as the code has it): the three regimes of a call, the delta the
    constructor fixes, and the documented example in binary64 arithmetic:
    from rate 1.0 with [decay_steps=5, final_lr=0.0, start_step=0] the five
    ramp calls return 0.8, 0.6000000000000001, 0.4000000000000001,
    0.20000000000000007 and 5.551115123125783e-17 (which is [2^-54], not
    0.0), and every later call leaves the rate at that value. *)
Theorem LinearLR_ramp :
  (forall V (self : LRScheduler.t LinearLR.params) (optim : Optimizer.t V),
     let p := LRScheduler.params self in
     let t := (LRScheduler._t self + 1)%Z in
     let self1 := LRScheduler.set_t t self in
     ((t <= LinearLR._start_step p)%Z ->
        LRScheduler.step (self, optim) = (Ok (Optimizer.lr optim), (self1, optim))) /\
     ((LinearLR._start_step p < t <= LinearLR._start_step p + LinearLR._decay_steps p)%Z ->
        LRScheduler.step (self, optim)
        = (Ok (Optimizer.lr optim + LinearLR._lr_delta p),
           (self1, Optimizer.set_lr (Optimizer.lr optim + LinearLR._lr_delta p) optim))) /\
     ((LinearLR._start_step p + LinearLR._decay_steps p < t)%Z ->
        LRScheduler.step (self, optim) = (Ok (Optimizer.lr optim), (self1, optim)))) /\
  (forall V (optimizer : Optimizer.t V) decay_steps final_lr start_step self,
     LinearLR.__init__ optimizer decay_steps final_lr start_step = Ok self ->
     (final_lr <? Optimizer.lr optimizer) = true /\ (0 < decay_steps)%Z /\
     exists d, float_of_int decay_steps = Ok d /\
       self = LRScheduler.make (Optimizer.lr optimizer) 0
                (LinearLR.Params ((final_lr - Optimizer.lr optimizer) / d)
                   final_lr decay_steps start_step)) /\
  (forall V (vars : V),
     let optimizer := Optimizer.make 1 vars in
     exists self,
       LinearLR.__init__ optimizer 5 0 0 = Ok self /\
       LinearLR._lr_delta (LRScheduler.params self) = -0.2 /\
       fst (LRScheduler.calls 5 (self, optimizer))
       = Ok [0.8; 0.6000000000000001; 0.4000000000000001; 0.20000000000000007;
             5.551115123125783e-17] /\
       forall n, (5 <= n)%nat ->
         Optimizer.lr (snd (snd (LRScheduler.calls n (self, optimizer))))
         = 5.551115123125783e-17).
Proof.
  split; [exact LinearLR_step|]. split.
  - intros V optimizer decay_steps final_lr start_step self H.
    unfold LinearLR.__init__ in H. unfold LRScheduler.get_current_lr in H.
    destruct (final_lr <? Optimizer.lr optimizer); [|discriminate H].
    destruct (Z.ltb_spec 0 decay_steps); [|discriminate H]. cbn [negb] in H.
    destruct (float_of_int decay_steps) as [d|e]; [|discriminate H].
    inversion H; subst. split; [reflexivity|]. split; [assumption|].
    exists d. split; reflexivity.
  - intros V vars optimizer.
    eexists. split; [vm_compute; reflexivity|].
    split; [vm_compute; reflexivity|]. split; [vm_compute; reflexivity|].
    intros n Hn. replace n with (5 + (n - 5))%nat by lia.
    rewrite calls_add_state by (vm_compute; reflexivity).
    match goal with |- context [LRScheduler.calls 5 ?s] =>
      let v := eval vm_compute in (snd (LRScheduler.calls 5 s)) in
      change (snd (LRScheduler.calls 5 s)) with v end.
    rewrite LinearLR_frozen by (cbn; lia). reflexivity.
Qed.

(** C6, refuted as stated: in the documented example the fifth call does
    not reach 0.0, and the rate is not 0.0 on the calls after it either. *)
Lemma LinearLR_example_misses_zero :
  let optimizer := Optimizer.make 1 SGD.Vars in
  exists self rs s,
    LinearLR.__init__ optimizer 5 0 0 = Ok self /\
    LRScheduler.calls 7 (self, optimizer) = (Ok rs, s) /\
    (nth 4 rs 0 =? 0) = false /\ (nth 5 rs 0 =? 0) = false /\ (nth 6 rs 0 =? 0) = false /\
    (0 <? nth 4 rs 0) = true /\
    (1 - nth 0 rs 0 =? 0.2) = false.
Proof.
  cbn zeta. do 3 eexists.
  split; [vm_compute; reflexivity|]. split; [vm_compute; reflexivity|].
  repeat split.
Qed.

(** ** ExponentialLR *)

Section Exponential.

Context {L : Libm}.



End Exponential.




(** ** MultiStepLR: the constructor's checks *)

(** The code's test over adjacent pairs is the strict order of the words. *)
Lemma increasing_spec : forall l,
  MultiStepLR.increasing l = true <-> strictly_increasing l.
Proof.
  unfold MultiStepLR.increasing.
  induction l as [|x l IH]; [cbn; tauto|].
  destruct l as [|y l]; [cbn; tauto|].
  change (removelast (x :: y :: l)) with (x :: removelast (y :: l)).
  cbn [tl combine forallb fst snd strictly_increasing] in *.
  rewrite andb_true_iff, Z.ltb_lt, IH. tauto.
Qed.

Lemma comprehension_int_PyInt : forall zs,
  comprehension int (List.map PyInt zs) = Ok zs.
Proof.
  induction zs as [|z zs IH]; [reflexivity|]. cbn. rewrite IH. reflexivity.
Qed.

Lemma forallb_isinstance_int : forall zs,
  forallb (fun x => isinstance_int (PyInt x)) zs = true.
Proof. induction zs as [|z zs IH]; [reflexivity|exact IH]. Qed.

(** On a list of ints the constructor succeeds exactly when the list is
    strictly increasing. *)
Lemma MultiStepLR_init_ints : forall V (optimizer : Optimizer.t V) zs gamma,
  (strictly_increasing zs ->
     MultiStepLR.__init__ optimizer (List.map PyInt zs) gamma
     = Ok (LRScheduler.__init__ optimizer (MultiStepLR.Params zs gamma))) /\
  (~ strictly_increasing zs ->
     MultiStepLR.__init__ optimizer (List.map PyInt zs) gamma = Raise AssertionError).
Proof.
  intros V optimizer zs gamma. unfold MultiStepLR.__init__.
  rewrite comprehension_int_PyInt, forallb_isinstance_int, andb_true_r.
  pose proof (increasing_spec zs) as Hs.
  destruct (MultiStepLR.increasing zs); split; intros H; try reflexivity.
  - exfalso. apply H, Hs. reflexivity.
  - apply Hs in H. discriminate H.
Qed.

(** C3 on the code.  On ints the constructor succeeds exactly on strictly
    increasing lists, and [[5, 3]] raises [AssertionError].  But
    the elements are passed through [int(...)] before the check, so
    [isinstance(x, int)] holds of every element that reaches it: the floats
    1.5 and 3.7 are truncated to 1 and 3 and the scheduler is built. *)
Theorem MultiStepLR_init_checks : forall V (optimizer : Optimizer.t V) (gamma : float),
  (forall zs,
     (strictly_increasing zs ->
        MultiStepLR.__init__ optimizer (List.map PyInt zs) gamma
        = Ok (LRScheduler.__init__ optimizer (MultiStepLR.Params zs gamma))) /\
     (~ strictly_increasing zs ->
        MultiStepLR.__init__ optimizer (List.map PyInt zs) gamma = Raise AssertionError)) /\
  MultiStepLR.__init__ optimizer [PyInt 5; PyInt 3] gamma = Raise AssertionError /\
  (forall ms coerced, comprehension int ms = Ok coerced ->
     forallb (fun x => isinstance_int (PyInt x)) coerced = true) /\
  MultiStepLR.__init__ optimizer [PyFloat 1.5; PyFloat 3.7] gamma
  = Ok (LRScheduler.__init__ optimizer (MultiStepLR.Params [1; 3]%Z gamma)) /\
  MultiStepLR.__init__ optimizer [PyInt 1; PyFloat 2.5] gamma
  = Ok (LRScheduler.__init__ optimizer (MultiStepLR.Params [1; 2]%Z gamma)).
Proof.
  intros V optimizer gamma.
  split; [intro zs; apply MultiStepLR_init_ints|].
  split; [reflexivity|].
  split; [intros ms coerced _; apply forallb_isinstance_int|].
  unfold MultiStepLR.__init__.
  assert (H1 : comprehension int [PyFloat 1.5; PyFloat 3.7] = Ok [1; 3]%Z)
    by (vm_compute; reflexivity).
  assert (H2 : comprehension int [PyInt 1; PyFloat 2.5] = Ok [1; 2]%Z)
    by (vm_compute; reflexivity).
  rewrite H1, H2. split; reflexivity.
Qed.

(* ================================================================== *)
(** * Part III: further properties of the module *)
(* ================================================================== *)

(** ** Optimizer.step: what it leaves alone, and updates that are too long *)

Lemma apply_blocks_frame : forall pgs step pointer,
  let pgs' := snd (Optimizer.apply_blocks step pointer pgs) in
  List.map snd pgs' = List.map snd pgs /\
  List.map (fun pg => shape (fst pg)) pgs' = List.map (fun pg => shape (fst pg)) pgs.
Proof.
  induction pgs as [|[param grad] pgs IH]; intros step pointer; cbn zeta;
    [split; reflexivity|].
  cbn [Optimizer.apply_blocks]. destruct (prod (shape param)) as [block|f];
    [|split; reflexivity].
  destruct (reshape _ _) as [b|e]; [|split; reflexivity].
  specialize (IH step (pointer + block)%nat). cbn zeta in IH.
  destruct (Optimizer.apply_blocks step (pointer + block) pgs) as [r rest'].
  cbn [snd fst List.map iadd shape] in *. destruct IH as [H1 H2].
  rewrite H1, H2. split; reflexivity.
Qed.

(** X1: Whatever the optimizer, the network and the outcome: [step] never
    changes a gradient, the shape of a parameter or the number of pairs.
    An exception of [_compute_step] comes out of [step] as it is, and no
    parameter has been touched then. *)
Theorem Optimizer_step_keeps_gradients_and_shapes :
  forall (V : Type) (I : Optimizer.Impl V) (self : Optimizer.t V) (net : NeuralNet),
  let pgs := get_params_and_grads net in
  let g := concat (List.map (fun pg => ravel (snd pg)) pgs) in
  let pgs' := get_params_and_grads (snd (snd (Optimizer.step (self, net)))) in
  List.map snd pgs' = List.map snd pgs /\
  List.map (fun pg => shape (fst pg)) pgs' = List.map (fun pg => shape (fst pg)) pgs /\
  length pgs' = length pgs /\
  (forall e, pgs <> [] -> fst (Optimizer._compute_step (Array g) self) = Raise e ->
     fst (Optimizer.step (self, net)) = Raise e /\ pgs' = pgs).
Proof.
  intros V I self net pgs g pgs'.
  assert (Hcat : pgs <> [] ->
            concatenate (List.map (fun pg => ravel (snd pg)) pgs) = Ok g).
  { unfold g. clear pgs'. clearbody pgs. destruct pgs; [intros H; contradiction|reflexivity]. }
  assert (H12 : List.map snd pgs' = List.map snd pgs /\
                List.map (fun pg => shape (fst pg)) pgs'
                = List.map (fun pg => shape (fst pg)) pgs).
  { unfold pgs', Optimizer.step. fold pgs.
    destruct (concatenate _) as [grad|e]; [|split; reflexivity].
    destruct (Optimizer._compute_step (Array grad) self) as [[[x|update]|e] self'];
      try (split; reflexivity).
    pose proof (apply_blocks_frame pgs update 0) as Hf. cbn zeta in Hf.
    destruct (Optimizer.apply_blocks update 0 pgs) as [r q]. exact Hf. }
  destruct H12 as [H1 H2]. split; [exact H1|]. split; [exact H2|]. split.
  - rewrite <- (length_map snd pgs'), H1. apply length_map.
  - intros e Hne He. unfold pgs', Optimizer.step. fold pgs. rewrite (Hcat Hne).
    destruct (Optimizer._compute_step (Array g) self) as [[t|e'] self']; [discriminate He|].
    cbn in He. inversion He; subst. split; reflexivity.
Qed.

Lemma split_by_firstn : forall sizes n (v : list float),
  fold_right Nat.add 0%nat sizes <= n ->
  split_by sizes (firstn n v) = split_by sizes v.
Proof.
  induction sizes as [|k sizes IH]; intros n v H; [reflexivity|].
  cbn [split_by fold_right] in *.
  rewrite firstn_firstn, Nat.min_l by lia.
  rewrite skipn_firstn_comm, IH by lia. reflexivity.
Qed.

(** X2: An update that is longer than the flat gradient is not refused: the
    slices take what the parameters need from its front and the rest is
    never looked at, so [step] does what it does for the update cut to the
    gradient's length. *)
Theorem Optimizer_step_ignores_surplus_update :
  forall (V : Type) (I : Optimizer.Impl V) (self self' : Optimizer.t V)
         (net : NeuralNet) (update : list float),
  let pgs := get_params_and_grads net in
  let g := concat (List.map (fun pg => ravel (snd pg)) pgs) in
  let blocks := split_by (block_sizes pgs) (firstn (length g) update) in
  pgs <> [] -> Forall matching pgs ->
  Optimizer._compute_step (Array g) self = (Ok (Array update), self') ->
  length g <= length update ->
  Optimizer.step (self, net)
  = (Ok tt, (self', mk_net (List.map (fun pb => updated (fst pb) (snd pb))
                              (combine pgs blocks)))) /\
  concat blocks = firstn (length g) update.
Proof.
  intros V I self self' net update pgs g blocks Hne Hm Hc Hlen.
  assert (Hsum : length g = fold_right Nat.add 0%nat (block_sizes pgs)).
  { unfold g. rewrite length_concat_sum, <- matching_sizes by assumption. reflexivity. }
  assert (Hcat : concatenate (List.map (fun pg => ravel (snd pg)) pgs) = Ok g).
  { unfold g. clear Hc Hlen Hsum blocks g. clearbody pgs.
    destruct pgs; [contradiction|reflexivity]. }
  split.
  - unfold Optimizer.step. fold pgs. rewrite Hcat, Hc.
    rewrite apply_blocks_ok by (assumption || lia).
    unfold blocks. rewrite split_by_firstn by lia. reflexivity.
  - apply concat_split_by. rewrite length_firstn. lia.
Qed.

(** A [Momentum] whose accumulator has three elements, on a network with
    one parameter of one element: the update broadcasts to three elements;
    the first is added to the parameter. *)
Lemma Optimizer_step_ignores_surplus_update_witness :
  let self := Optimizer.make 1 (Momentum.Vars 0.5 (Array [2; 4; 6])) in
  let net := mk_net [(mk_ndarray [1]%nat [10], mk_ndarray [1]%nat [1])] in
  Optimizer.step (self, net)
  = (Ok tt, (Optimizer.make 1 (Momentum.Vars 0.5 (Array [2; 3; 4])),
             mk_net [(mk_ndarray [1]%nat [8], mk_ndarray [1]%nat [1])])).
Proof.
  refine (proj1 (Optimizer_step_ignores_surplus_update Momentum.vars Momentum.impl
            (Optimizer.make 1 (Momentum.Vars 0.5 (Array [2; 4; 6])))
            (Optimizer.make 1 (Momentum.Vars 0.5 (Array [2; 3; 4])))
            (mk_net [(mk_ndarray [1]%nat [10], mk_ndarray [1]%nat [1])])
            [-2; -3; -4] _ _ _ _)).
  - discriminate.
  - repeat constructor; cbn; discriminate.
  - reflexivity.
  - cbn. lia.
Defined.

(** ** Optimizer.step: updates that are too short *)

Lemma apply_blocks_short : forall pgs step pointer,
  Forall matching pgs -> pointer <= length step ->
  length step < pointer + fold_right Nat.add 0%nat (block_sizes pgs) ->
  exists done pg rest,
    pgs = done ++ pg :: rest /\
    pointer + fold_right Nat.add 0%nat (block_sizes done) <= length step /\
    length step < pointer + fold_right Nat.add 0%nat (block_sizes done)
                  + size_of (shape (fst pg)) /\
    Optimizer.apply_blocks step pointer pgs
    = (Raise ValueError,
       List.map (fun pb => updated (fst pb) (snd pb))
         (combine done (split_by (block_sizes done) (skipn pointer step)))
       ++ pg :: rest).
Proof.
  induction pgs as [|[param grad] pgs IH]; intros step pointer Hm Hptr Hlen.
  - cbn in Hlen. lia.
  - inversion Hm as [|? ? ((Hnd & Hp) & _ & _) Hm']; subst. cbn [fst] in Hnd, Hp.
    change (block_sizes ((param, grad) :: pgs))
      with (size_of (shape param) :: block_sizes pgs) in *.
    cbn [fold_right] in Hlen.
    destruct (Nat.le_gt_cases (pointer + size_of (shape param)) (length step)) as [Hfit|Hshort].
    + destruct (IH step (pointer + size_of (shape param))%nat Hm' Hfit ltac:(lia))
        as (done & pg & rest & Hpgs & Hdone & Hpg & Happ).
      exists ((param, grad) :: done), pg, rest.
      change (block_sizes ((param, grad) :: done))
        with (size_of (shape param) :: block_sizes done).
      split; [rewrite Hpgs; reflexivity|]. cbn [fold_right].
      split; [lia|]. split; [lia|].
      cbn [Optimizer.apply_blocks]. unfold prod.
      destruct (shape param) as [|d sh] eqn:Esh; [contradiction|].
      rewrite <- Esh in *. unfold reshape, slice.
      replace (pointer + size_of (shape param) - pointer)%nat
        with (size_of (shape param)) by lia.
      rewrite length_firstn, length_skipn.
      replace (Nat.min (size_of (shape param)) (length step - pointer)%nat)
        with (size_of (shape param)) by lia.
      rewrite Nat.eqb_refl, Happ.
      cbn [split_by combine List.map fst snd app]. rewrite skipn_skipn.
      replace (size_of (shape param) + pointer)%nat
        with (pointer + size_of (shape param))%nat by lia.
      reflexivity.
    + exists [], (param, grad), pgs. cbn [app block_sizes List.map fold_right combine fst].
      split; [reflexivity|]. split; [lia|]. split; [lia|].
      cbn [Optimizer.apply_blocks]. unfold prod.
      destruct (shape param) as [|d sh] eqn:Esh; [contradiction|].
      rewrite <- Esh in *. unfold reshape, slice.
      replace (pointer + size_of (shape param) - pointer)%nat
        with (size_of (shape param)) by lia.
      rewrite length_firstn, length_skipn.
      destruct (Nat.eqb_spec (Nat.min (size_of (shape param)) (length step - pointer))
                  (size_of (shape param))) as [E|E]; [lia|reflexivity].
Qed.

Lemma covered_app : forall done pg rest len,
  fold_right Nat.add 0%nat (block_sizes done) <= len ->
  len < fold_right Nat.add 0%nat (block_sizes done) + size_of (shape (fst pg)) ->
  covered (block_sizes (done ++ pg :: rest)) len = length done.
Proof.
  induction done as [|d done IH]; intros pg rest len Hle Hlt.
  - cbn in *. destruct (Nat.leb_spec (size_of (shape (fst pg))) len); [lia|reflexivity].
  - change (block_sizes ((d :: done) ++ pg :: rest))
      with (size_of (shape (fst d)) :: block_sizes (done ++ pg :: rest)).
    change (block_sizes (d :: done)) with (size_of (shape (fst d)) :: block_sizes done) in *.
    cbn [fold_right covered length] in *.
    destruct (Nat.leb_spec (size_of (shape (fst d))) len); [|lia].
    rewrite (IH pg rest (len - size_of (shape (fst d)))%nat) by lia. reflexivity.
Qed.

(** X3: An update that is shorter than the flat gradient, on a network of
    matching pairs: the loop adds their blocks to the [k] leading
    parameters the update covers completely, and raises [ValueError] at
    the next one, whose slice comes out short and cannot be reshaped.  The
    parameters before it stay changed, this one and those after it are as
    they were, and the optimizer keeps the state [_compute_step] left. *)
Theorem Optimizer_step_short_update_partial :
  forall (V : Type) (I : Optimizer.Impl V) (self self' : Optimizer.t V)
         (net : NeuralNet) (update : list float),
  let pgs := get_params_and_grads net in
  let g := concat (List.map (fun pg => ravel (snd pg)) pgs) in
  let k := covered (block_sizes pgs) (length update) in
  let done := firstn k pgs in
  Forall matching pgs ->
  Optimizer._compute_step (Array g) self = (Ok (Array update), self') ->
  length update < length g ->
  k < length pgs /\
  Optimizer.step (self, net)
  = (Raise ValueError,
     (self', mk_net (List.map (fun pb => updated (fst pb) (snd pb))
                       (combine done (split_by (block_sizes done) update))
                     ++ skipn k pgs))).
Proof.
  intros V I self self' net update pgs g k done Hm Hc Hlen.
  assert (Hsum : length g = fold_right Nat.add 0%nat (block_sizes pgs)).
  { unfold g. rewrite length_concat_sum, <- matching_sizes by assumption. reflexivity. }
  assert (Hne : pgs <> []).
  { intros E. rewrite E in Hsum. cbn in Hsum. lia. }
  assert (Hcat : concatenate (List.map (fun pg => ravel (snd pg)) pgs) = Ok g).
  { unfold g. clear Hc Hlen Hsum g k done. clearbody pgs.
    destruct pgs; [contradiction|reflexivity]. }
  destruct (apply_blocks_short pgs update 0 Hm ltac:(lia) ltac:(lia))
    as (done' & pg & rest & Hpgs & Hdone & Hpg & Happ).
  assert (Hk : k = length done').
  { unfold k. rewrite Hpgs. apply covered_app; lia. }
  assert (Hfirst : done = done').
  { unfold done. rewrite Hk, Hpgs. rewrite firstn_app, Nat.sub_diag, firstn_all.
    cbn [firstn]. apply app_nil_r. }
  assert (Hskip : skipn k pgs = pg :: rest).
  { rewrite Hk, Hpgs. rewrite skipn_app, Nat.sub_diag, skipn_all. reflexivity. }
  split.
  - rewrite Hk, Hpgs, length_app. cbn. lia.
  - unfold Optimizer.step. fold pgs. rewrite Hcat, Hc, Happ, Hfirst, Hskip. reflexivity.
Qed.

(** A subclass whose [_compute_step] returns four elements, on the example
    network of a 2x2 weight and a bias of one element: the weight has got
    its block when the bias raises. *)
Lemma Optimizer_step_short_update_partial_witness :
  let I : Optimizer.Impl unit := fun _ self => (Ok (Array [-1; -1; -1; -1]), self) in
  let self := Optimizer.make 0.1 tt in
  Forall matching (get_params_and_grads example_net) /\
  @Optimizer.step unit I (self, example_net)
  = (Raise ValueError,
     (self,
      mk_net [ (mk_ndarray [2; 2]%nat [0; 1; 2; 3], mk_ndarray [2; 2]%nat [0.5; 0.5; 1; 1]);
               (mk_ndarray [1]%nat [10], mk_ndarray [1]%nat [2]) ])).
Proof.
  split; [exact example_net_matching|].
  exact (proj2 (Optimizer_step_short_update_partial unit
                  (fun _ self => (Ok (Array [-1; -1; -1; -1]), self))
                  (Optimizer.make 0.1 tt) (Optimizer.make 0.1 tt) example_net
                  [-1; -1; -1; -1] example_net_matching eq_refl
                  ltac:(cbn; lia))).
Defined.

(** ** Optimizer state that goes with the network *)

Lemma decayed_sum_length : forall c st ys, tensor_fits (length ys) st ->
  length (decayed_sum c st ys) = length ys.
Proof.
  intros c [a|xs] ys H; cbn in *; [apply length_map|].
  rewrite zip_with_length, H. apply Nat.min_id.
Qed.

Lemma add_decayed : forall c st ys, tensor_fits (length ys) st ->
  add (Np.map (fun x => c * x) st) (Array ys) = Ok (Array (decayed_sum c st ys)).
Proof.
  intros c [a|xs] ys H; cbn in H; [reflexivity|].
  unfold add. cbn [Np.map]. rewrite broadcast_arrays by (rewrite length_map; exact H).
  rewrite zip_with_map_l. reflexivity.
Qed.

Lemma updated_blocks_matching : forall pgs (v : list float), Forall matching pgs ->
  fold_right Nat.add 0%nat (block_sizes pgs) <= length v ->
  Forall matching (List.map (fun pb => updated (fst pb) (snd pb))
                     (combine pgs (split_by (block_sizes pgs) v))).
Proof.
  induction pgs as [|pg pgs IH]; intros v Hm Hlen; [constructor|].
  inversion Hm; subst.
  change (block_sizes (pg :: pgs)) with (size_of (shape (fst pg)) :: block_sizes pgs) in *.
  cbn [split_by combine List.map fst snd fold_right] in *. constructor.
  - apply updated_matching; [assumption|]. rewrite length_firstn. lia.
  - apply IH; [assumption|]. rewrite length_skipn. lia.
Qed.

Lemma updated_blocks_grads : forall pgs (v : list float),
  List.map snd (List.map (fun pb => updated (fst pb) (snd pb))
                  (combine pgs (split_by (block_sizes pgs) v)))
  = List.map snd pgs.
Proof.
  induction pgs as [|pg pgs IH]; intros v; [reflexivity|].
  change (block_sizes (pg :: pgs)) with (size_of (shape (fst pg)) :: block_sizes pgs).
  cbn [split_by combine List.map fst snd updated]. rewrite IH. reflexivity.
Qed.

Section FittingStep.

Context {V : Type} {I : Optimizer.Impl V}.

(** A step whose update has the flat gradient's length: the outcome, and
    the network is as fit for the next step as it was for this one. *)
Lemma Optimizer_step_fitting : forall (self self' : Optimizer.t V) (net : NeuralNet) update,
  let pgs := get_params_and_grads net in
  let g := concat (List.map (fun pg => ravel (snd pg)) pgs) in
  let pgs' := List.map (fun pb => updated (fst pb) (snd pb))
                (combine pgs (split_by (block_sizes pgs) update)) in
  pgs <> [] -> Forall matching pgs ->
  Optimizer._compute_step (Array g) self = (Ok (Array update), self') ->
  length update = length g ->
  Optimizer.step (self, net) = (Ok tt, (self', mk_net pgs')) /\
  Forall matching pgs' /\ List.map snd pgs' = List.map snd pgs.
Proof.
  intros self self' net update pgs g pgs' Hne Hm Hc Hlen.
  split; [apply Optimizer_step_ok; assumption|].
  split; [|apply updated_blocks_grads].
  apply updated_blocks_matching; [assumption|].
  rewrite Hlen. unfold g. rewrite length_concat_sum, <- matching_sizes by assumption. lia.
Qed.

End FittingStep.

(** *** Momentum *)

Lemma Momentum_compute_step_fitting : forall (self : Optimizer.t Momentum.vars) g,
  let s := Optimizer.vars self in
  let acc := decayed_sum (Momentum._momentum s) (Momentum._acc s) g in
  tensor_fits (length g) (Momentum._acc s) ->
  Optimizer._compute_step (Array g) self
  = (Ok (Array (List.map (fun x => - Optimizer.lr self * x) acc)),
     Optimizer.make (Optimizer.lr self) (Momentum.Vars (Momentum._momentum s) (Array acc))).
Proof.
  intros [lr [momentum acc0]] g s acc Hfit. cbn in Hfit.
  unfold Optimizer._compute_step, Momentum.impl, Momentum._compute_step, Momentum.assign,
    bind, get, lift, ret.
  cbn [Optimizer.vars Optimizer.lr Momentum._momentum Momentum._acc].
  rewrite (add_decayed momentum acc0 g Hfit). reflexivity.
Qed.

(** X4: A [Momentum] whose accumulator is still the number it was created as,
    or an array of the flat gradient's length, on a non-empty network of
    matching pairs: [step] returns, the accumulator becomes
    [momentum * acc + g], every parameter gets its block of [-lr] times
    that, and accumulator and network go together again for the next
    step.  So a training loop on one network never raises. *)
Theorem Momentum_step_on_fitting_state :
  forall (self : Optimizer.t Momentum.vars) (net : NeuralNet),
  let pgs := get_params_and_grads net in
  let g := concat (List.map (fun pg => ravel (snd pg)) pgs) in
  let s := Optimizer.vars self in
  let acc := decayed_sum (Momentum._momentum s) (Momentum._acc s) g in
  let update := List.map (fun x => - Optimizer.lr self * x) acc in
  let pgs' := List.map (fun pb => updated (fst pb) (snd pb))
                (combine pgs (split_by (block_sizes pgs) update)) in
  pgs <> [] -> Forall matching pgs -> tensor_fits (length g) (Momentum._acc s) ->
  Optimizer.step (self, net)
  = (Ok tt, (Optimizer.make (Optimizer.lr self)
               (Momentum.Vars (Momentum._momentum s) (Array acc)), mk_net pgs')) /\
  length acc = length g /\
  Forall matching pgs' /\ List.map snd pgs' = List.map snd pgs.
Proof.
  intros self net pgs g s acc update pgs' Hne Hm Hfit.
  assert (Hacc : length acc = length g) by (apply decayed_sum_length; exact Hfit).
  pose proof (Optimizer_step_fitting self _ net update Hne Hm
                (Momentum_compute_step_fitting self g Hfit)
                ltac:(unfold update; rewrite length_map; exact Hacc)) as (H1 & H2 & H3).
  repeat split; assumption.
Qed.

(** *** Adam *)

Lemma Adam_compute_step_fitting : forall (L : Libm) (self : Optimizer.t Adam.vars) g,
  let s := Optimizer.vars self in
  let m := decayed_sum (Adam._b1 s) (Adam._m s)
             (List.map (fun gi => (1 - Adam._b1 s) * gi) g) in
  let v := decayed_sum (Adam._b2 s) (Adam._v s)
             (List.map (fun gi => (1 - Adam._b2 s) * (gi * gi)) g) in
  let lr_t := Adam.lr_t (Optimizer.lr self) (Adam._b1 s) (Adam._b2 s) (Adam._t s + 1) in
  tensor_fits (length g) (Adam._m s) -> tensor_fits (length g) (Adam._v s) ->
  Optimizer._compute_step (Array g) self
  = (Ok (Array (zip_with (fun mi vi => - lr_t * mi / (PrimFloat.sqrt vi + Adam._eps s)) m v)),
     Optimizer.make (Optimizer.lr self)
       (Adam.Vars (Adam._b1 s) (Adam._b2 s) (Adam._eps s) (Adam._t s + 1) (Array m) (Array v))).
Proof.
  intros L [lr [b1 b2 eps t m0 v0]] g s m v lr_t Hm Hv. cbn in Hm, Hv.
  unfold Optimizer._compute_step, Adam.impl, Adam._compute_step, Adam.assign,
    bind, get, lift.
  cbn [Optimizer.vars Optimizer.set_vars Optimizer.lr Adam.set_t Adam.set_m Adam.set_v
       Adam._b1 Adam._b2 Adam._eps Adam._t Adam._m Adam._v square].
  change (Np.map (fun g0 => (1 - b1) * g0) (Array g))
    with (Array (List.map (fun gi => (1 - b1) * gi) g)).
  rewrite (add_decayed b1 m0 _) by (rewrite length_map; exact Hm).
  cbn [Optimizer.vars Optimizer.set_vars Optimizer.lr Adam.set_t Adam.set_m Adam.set_v
       Adam._b1 Adam._b2 Adam._eps Adam._t Adam._m Adam._v].
  change (Np.map (fun g0 => (1 - b2) * g0) (square (Array g)))
    with (Array (List.map (fun gi => (1 - b2) * gi) (List.map (fun x => x * x) g))).
  rewrite map_map.
  rewrite (add_decayed b2 v0 _) by (rewrite length_map; exact Hv).
  cbn [Optimizer.vars Optimizer.set_vars Optimizer.lr Adam.set_t Adam.set_m Adam.set_v
       Adam._b1 Adam._b2 Adam._eps Adam._t Adam._m Adam._v Np.map Np.sqrt].
  unfold divide. rewrite broadcast_arrays.
  - rewrite !zip_with_map_l, !zip_with_map_r. reflexivity.
  - rewrite !length_map, !decayed_sum_length by (rewrite length_map; assumption).
    rewrite !length_map. reflexivity.
Qed.

(** X5: An [Adam] whose moments are still the numbers they were created as, or
    arrays of the flat gradient's length, on a non-empty network of
    matching pairs: [step] returns, the counter goes up by one, the moments
    become [b1 * m + (1 - b1) * g] and [b2 * v + (1 - b2) * g * g], every
    parameter gets its block of [-lr_t * m / (sqrt(v) + eps)], and moments
    and network go together again for the next step. *)
Theorem Adam_step_on_fitting_state :
  forall (L : Libm) (self : Optimizer.t Adam.vars) (net : NeuralNet),
  let pgs := get_params_and_grads net in
  let g := concat (List.map (fun pg => ravel (snd pg)) pgs) in
  let s := Optimizer.vars self in
  let m := decayed_sum (Adam._b1 s) (Adam._m s)
             (List.map (fun gi => (1 - Adam._b1 s) * gi) g) in
  let v := decayed_sum (Adam._b2 s) (Adam._v s)
             (List.map (fun gi => (1 - Adam._b2 s) * (gi * gi)) g) in
  let lr_t := Adam.lr_t (Optimizer.lr self) (Adam._b1 s) (Adam._b2 s) (Adam._t s + 1) in
  let update := zip_with (fun mi vi => - lr_t * mi / (PrimFloat.sqrt vi + Adam._eps s)) m v in
  let pgs' := List.map (fun pb => updated (fst pb) (snd pb))
                (combine pgs (split_by (block_sizes pgs) update)) in
  pgs <> [] -> Forall matching pgs ->
  tensor_fits (length g) (Adam._m s) -> tensor_fits (length g) (Adam._v s) ->
  Optimizer.step (self, net)
  = (Ok tt, (Optimizer.make (Optimizer.lr self)
               (Adam.Vars (Adam._b1 s) (Adam._b2 s) (Adam._eps s) (Adam._t s + 1)
                  (Array m) (Array v)), mk_net pgs')) /\
  length m = length g /\ length v = length g /\
  Forall matching pgs' /\ List.map snd pgs' = List.map snd pgs.
Proof.
  intros L self net pgs g s m v lr_t update pgs' Hne Hmt Hm Hv.
  assert (Hlm : length m = length g).
  { unfold m. rewrite decayed_sum_length by (rewrite length_map; exact Hm). apply length_map. }
  assert (Hlv : length v = length g).
  { unfold v. rewrite decayed_sum_length by (rewrite length_map; exact Hv). apply length_map. }
  pose proof (Optimizer_step_fitting self _ net update Hne Hmt
                (Adam_compute_step_fitting L self g Hm Hv)
                ltac:(unfold update; rewrite zip_with_length, Hlm, Hlv; apply Nat.min_id))
    as (H1 & H2 & H3).
  repeat split; assumption.
Qed.

(** *** RMSProp *)

Lemma RMSProp_compute_step_fitting : forall (self : Optimizer.t RMSProp.vars) g,
  let s := Optimizer.vars self in
  let ms := decayed_sum (RMSProp._decay s) (RMSProp._ms s)
              (List.map (fun gi => (1 - RMSProp._decay s) * (gi * gi)) g) in
  let q := zip_with (fun gi msi => Optimizer.lr self * gi / PrimFloat.sqrt (msi + RMSProp._eps s))
             g ms in
  let mom := decayed_sum (RMSProp._momentum s) (RMSProp._mom s) q in
  tensor_fits (length g) (RMSProp._ms s) -> tensor_fits (length g) (RMSProp._mom s) ->
  Optimizer._compute_step (Array g) self
  = (Ok (Array (List.map PrimFloat.opp mom)),
     Optimizer.make (Optimizer.lr self)
       (RMSProp.Vars (RMSProp._decay s) (RMSProp._momentum s) (RMSProp._eps s)
          (Array ms) (Array mom))).
Proof.
  intros [lr [decay momentum eps ms0 mom0]] g s ms q mom Hms Hmom. cbn in Hms, Hmom.
  assert (Hlms : length ms = length g).
  { unfold ms. rewrite decayed_sum_length by (rewrite length_map; exact Hms).
    apply length_map. }
  unfold Optimizer._compute_step, RMSProp.impl, RMSProp._compute_step, RMSProp.assign,
    bind, get, lift, ret.
  cbn [Optimizer.vars Optimizer.set_vars Optimizer.lr RMSProp.set_ms RMSProp.set_mom
       RMSProp._decay RMSProp._momentum RMSProp._eps RMSProp._ms RMSProp._mom square].
  change (Np.map (fun g0 => (1 - decay) * g0) (square (Array g)))
    with (Array (List.map (fun gi => (1 - decay) * gi) (List.map (fun x => x * x) g))).
  rewrite map_map.
  rewrite (add_decayed decay ms0 _) by (rewrite length_map; exact Hms).
  cbn [Optimizer.vars Optimizer.set_vars Optimizer.lr RMSProp.set_ms RMSProp.set_mom
       RMSProp._decay RMSProp._momentum RMSProp._eps RMSProp._ms RMSProp._mom
       Np.map Np.sqrt].
  unfold divide. rewrite broadcast_arrays by (rewrite !length_map; symmetry; exact Hlms).
  rewrite !map_map, zip_with_map_l, zip_with_map_r.
  assert (Hq : add (Np.map (fun x => momentum * x) mom0) (Array q)
               = Ok (Array (decayed_sum momentum mom0 q))).
  { apply add_decayed. unfold q. rewrite zip_with_length, Hlms, Nat.min_id. exact Hmom. }
  unfold q, ms, s in Hq.
  cbn [Optimizer.vars Optimizer.lr RMSProp._decay RMSProp._eps RMSProp._ms] in Hq.
  rewrite Hq. reflexivity.
Qed.

(** X6: An [RMSProp] whose buffers are still the numbers they were created as,
    or arrays of the flat gradient's length, on a non-empty network of
    matching pairs: [step] returns, the mean square becomes
    [decay * ms + (1 - decay) * g * g], the momentum buffer
    [momentum * mom + lr * g / sqrt(ms + eps)], every parameter gets its
    block of the negated buffer, and buffers and network go together again
    for the next step. *)
Theorem RMSProp_step_on_fitting_state :
  forall (self : Optimizer.t RMSProp.vars) (net : NeuralNet),
  let pgs := get_params_and_grads net in
  let g := concat (List.map (fun pg => ravel (snd pg)) pgs) in
  let s := Optimizer.vars self in
  let ms := decayed_sum (RMSProp._decay s) (RMSProp._ms s)
              (List.map (fun gi => (1 - RMSProp._decay s) * (gi * gi)) g) in
  let q := zip_with (fun gi msi => Optimizer.lr self * gi / PrimFloat.sqrt (msi + RMSProp._eps s))
             g ms in
  let mom := decayed_sum (RMSProp._momentum s) (RMSProp._mom s) q in
  let update := List.map PrimFloat.opp mom in
  let pgs' := List.map (fun pb => updated (fst pb) (snd pb))
                (combine pgs (split_by (block_sizes pgs) update)) in
  pgs <> [] -> Forall matching pgs ->
  tensor_fits (length g) (RMSProp._ms s) -> tensor_fits (length g) (RMSProp._mom s) ->
  Optimizer.step (self, net)
  = (Ok tt, (Optimizer.make (Optimizer.lr self)
               (RMSProp.Vars (RMSProp._decay s) (RMSProp._momentum s) (RMSProp._eps s)
                  (Array ms) (Array mom)), mk_net pgs')) /\
  length ms = length g /\ length mom = length g /\
  Forall matching pgs' /\ List.map snd pgs' = List.map snd pgs.
Proof.
  intros self net pgs g s ms q mom update pgs' Hne Hmt Hms Hmom.
  assert (Hlms : length ms = length g).
  { unfold ms. rewrite decayed_sum_length by (rewrite length_map; exact Hms).
    apply length_map. }
  assert (Hlq : length q = length g).
  { unfold q. rewrite zip_with_length, Hlms. apply Nat.min_id. }
  assert (Hlmom : length mom = length g).
  { unfold mom. rewrite decayed_sum_length by (rewrite Hlq; exact Hmom). exact Hlq. }
  pose proof (Optimizer_step_fitting self _ net update Hne Hmt
                (RMSProp_compute_step_fitting self g Hms Hmom)
                ltac:(unfold update; rewrite length_map; exact Hlmom))
    as (H1 & H2 & H3).
  repeat split; assumption.
Qed.

(** The example network under a [Momentum] that has seen five elements
    before. *)
Lemma Momentum_step_on_fitting_state_witness :
  Optimizer.step (Optimizer.make 1 (Momentum.Vars 0.5 (Array [2; 2; 2; 2; 2])), example_net)
  = (Ok tt,
     (Optimizer.make 1 (Momentum.Vars 0.5 (Array [1.5; 1.5; 2; 2; 3])),
      mk_net [ (mk_ndarray [2; 2]%nat [-0.5; 0.5; 1; 2], mk_ndarray [2; 2]%nat [0.5; 0.5; 1; 1]);
               (mk_ndarray [1]%nat [7], mk_ndarray [1]%nat [2]) ])).
Proof.
  refine (proj1 (Momentum_step_on_fitting_state
                   (Optimizer.make 1 (Momentum.Vars 0.5 (Array [2; 2; 2; 2; 2])))
                   example_net _ example_net_matching _)).
  - discriminate.
  - reflexivity.
Defined.

(** The example network under a new [Adam]: the step returns, the counter
    is 1 and both moments have the five elements of the flat gradient. *)
Lemma Adam_step_on_fitting_state_witness :
  let self := Optimizer.make 0.001 (Adam.Vars 0.9 0.999 1e-8 0 (Scalar 0) (Scalar 0)) in
  let out := @Optimizer.step _ (@Adam.impl exact_pow) (self, example_net) in
  fst out = Ok tt /\
  Adam._t (Optimizer.vars (fst (snd out))) = 1%Z /\
  tensor_fits 5 (Adam._m (Optimizer.vars (fst (snd out)))) /\
  tensor_fits 5 (Adam._v (Optimizer.vars (fst (snd out)))).
Proof.
  intros self out.
  pose proof (Adam_step_on_fitting_state exact_pow self example_net
                ltac:(discriminate) example_net_matching Logic.I Logic.I) as (H & Hm & Hv & _).
  unfold out. rewrite H. cbn [fst snd Optimizer.vars Adam._t Adam._m Adam._v tensor_fits].
  split; [reflexivity|]. split; [reflexivity|]. split; [exact Hm|exact Hv].
Defined.

(** The example network under an [RMSProp] with buffers of five elements. *)
Lemma RMSProp_step_on_fitting_state_witness :
  let self := Optimizer.make 1 (RMSProp.Vars 0.5 0.5 0
                                  (Array [1; 1; 1; 1; 1]) (Array [0; 0; 0; 0; 0])) in
  let out := Optimizer.step (self, example_net) in
  fst out = Ok tt /\
  tensor_fits 5 (RMSProp._ms (Optimizer.vars (fst (snd out)))) /\
  tensor_fits 5 (RMSProp._mom (Optimizer.vars (fst (snd out)))).
Proof.
  intros self out.
  pose proof (RMSProp_step_on_fitting_state self example_net
                ltac:(discriminate) example_net_matching eq_refl eq_refl) as (H & Hm & Hv & _).
  unfold out. rewrite H. cbn [fst snd Optimizer.vars RMSProp._ms RMSProp._mom tensor_fits].
  split; [reflexivity|]. split; [exact Hm|exact Hv].
Defined.

(** ** An optimizer used on a network of another size *)

Lemma broadcast_mismatch : forall f xs ys, length xs <> length ys ->
  length xs <> 1%nat -> length ys <> 1%nat ->
  broadcast f (Array xs) (Array ys) = Raise ValueError.
Proof.
  intros f xs ys H H1 H2. unfold broadcast.
  destruct (Nat.eqb_spec (length xs) (length ys)); [contradiction|].
  destruct xs as [|x [|x' xs]]; destruct ys as [|y [|y' ys]]; cbn in *;
    try reflexivity; contradiction.
Qed.

(** X7: State that is an array of [n] elements, met by a flat gradient of
    another length, neither of them 1: numpy cannot broadcast the two and
    [step] raises [ValueError] before any parameter is touched.  [Momentum]
    is as it was, and so is [RMSProp] when its mean square is of the wrong
    length; when only its momentum buffer is, the mean square has been
    advanced.  [Adam]'s counter has gone up in every case, and when only
    the second moment is of the wrong length, the first moment has been
    advanced as well. *)
Theorem step_with_state_of_another_length :
  forall (L : Libm) (net : NeuralNet) (n : nat),
  let pgs := get_params_and_grads net in
  let g := concat (List.map (fun pg => ravel (snd pg)) pgs) in
  pgs <> [] -> length g <> n -> length g <> 1%nat -> n <> 1%nat ->
  (forall lr momentum acc, length acc = n ->
     let self := Optimizer.make lr (Momentum.Vars momentum (Array acc)) in
     Optimizer.step (self, net) = (Raise ValueError, (self, net))) /\
  (forall lr decay momentum eps ms mom, length ms = n ->
     let self := Optimizer.make lr (RMSProp.Vars decay momentum eps (Array ms) mom) in
     Optimizer.step (self, net) = (Raise ValueError, (self, net))) /\
  (forall lr decay momentum eps ms mom, tensor_fits (length g) ms -> length mom = n ->
     let ms' := decayed_sum decay ms (List.map (fun gi => (1 - decay) * (gi * gi)) g) in
     Optimizer.step (Optimizer.make lr (RMSProp.Vars decay momentum eps ms (Array mom)), net)
     = (Raise ValueError,
        (Optimizer.make lr (RMSProp.Vars decay momentum eps (Array ms') (Array mom)), net))) /\
  (forall lr b1 b2 eps t m v, length m = n ->
     Optimizer.step (Optimizer.make lr (Adam.Vars b1 b2 eps t (Array m) v), net)
     = (Raise ValueError,
        (Optimizer.make lr (Adam.Vars b1 b2 eps (t + 1) (Array m) v), net))) /\
  (forall lr b1 b2 eps t m v, tensor_fits (length g) m -> length v = n ->
     let m' := decayed_sum b1 m (List.map (fun gi => (1 - b1) * gi) g) in
     Optimizer.step (Optimizer.make lr (Adam.Vars b1 b2 eps t m (Array v)), net)
     = (Raise ValueError,
        (Optimizer.make lr (Adam.Vars b1 b2 eps (t + 1) (Array m') (Array v)), net))).
Proof.
  intros L net n pgs g Hne Hn Hg1 Hn1.
  assert (Hcat : concatenate (List.map (fun pg => ravel (snd pg)) pgs) = Ok g).
  { unfold g. clear Hn Hg1 g. clearbody pgs. destruct pgs; [contradiction|reflexivity]. }
  split; [|split; [|split; [|split]]].
  - intros lr momentum acc Hacc self.
    unfold Optimizer.step. fold pgs. rewrite Hcat.
    unfold Optimizer._compute_step, Momentum.impl, Momentum._compute_step, bind, get, lift.
    cbn [Optimizer.vars self Momentum._momentum Momentum._acc Np.map]. unfold add.
    rewrite broadcast_mismatch by (rewrite ?length_map; lia). reflexivity.
  - intros lr decay momentum eps ms mom Hms self.
    unfold Optimizer.step. fold pgs. rewrite Hcat.
    unfold Optimizer._compute_step, RMSProp.impl, RMSProp._compute_step, bind, get, lift.
    cbn [Optimizer.vars self RMSProp._decay RMSProp._ms Np.map square]. unfold add.
    rewrite broadcast_mismatch by (rewrite ?length_map; lia). reflexivity.
  - intros lr decay momentum eps ms mom Hms Hmom ms'.
    assert (Hlms : length ms' = length g).
    { unfold ms'. rewrite decayed_sum_length by (rewrite length_map; exact Hms).
      apply length_map. }
    unfold Optimizer.step. fold pgs. rewrite Hcat.
    unfold Optimizer._compute_step, RMSProp.impl, RMSProp._compute_step, RMSProp.assign,
      bind, get, lift.
    cbn [Optimizer.vars Optimizer.set_vars Optimizer.lr RMSProp.set_ms RMSProp.set_mom
         RMSProp._decay RMSProp._momentum RMSProp._eps RMSProp._ms RMSProp._mom].
    change (Np.map (fun g0 => (1 - decay) * g0) (square (Array g)))
      with (Array (List.map (fun gi => (1 - decay) * gi) (List.map (fun x => x * x) g))).
    rewrite map_map.
    rewrite (add_decayed decay ms _) by (rewrite length_map; exact Hms). fold ms'.
    cbn [Optimizer.vars Optimizer.set_vars Optimizer.lr RMSProp.set_ms RMSProp.set_mom
         RMSProp._decay RMSProp._momentum RMSProp._eps RMSProp._ms RMSProp._mom
         Np.map Np.sqrt].
    unfold divide. rewrite broadcast_arrays by (rewrite !length_map; symmetry; exact Hlms).
    cbn [Optimizer.vars Optimizer.set_vars Optimizer.lr RMSProp.set_ms RMSProp.set_mom
         RMSProp._decay RMSProp._momentum RMSProp._eps RMSProp._ms RMSProp._mom Np.map].
    unfold add.
    rewrite broadcast_mismatch
      by (rewrite ?length_map, ?zip_with_length, ?length_map, ?Hlms, ?Nat.min_id; lia).
    reflexivity.
  - intros lr b1 b2 eps t m v Hm.
    unfold Optimizer.step. fold pgs. rewrite Hcat.
    unfold Optimizer._compute_step, Adam.impl, Adam._compute_step, Adam.assign,
      bind, get, lift.
    cbn [Optimizer.vars Optimizer.set_vars Optimizer.lr Adam.set_t
         Adam._b1 Adam._b2 Adam._eps Adam._t Adam._m Adam._v Np.map]. unfold add.
    rewrite broadcast_mismatch by (rewrite ?length_map; lia). reflexivity.
  - intros lr b1 b2 eps t m v Hm Hv m'.
    unfold Optimizer.step. fold pgs. rewrite Hcat.
    unfold Optimizer._compute_step, Adam.impl, Adam._compute_step, Adam.assign,
      bind, get, lift.
    cbn [Optimizer.vars Optimizer.set_vars Optimizer.lr Adam.set_t Adam.set_m
         Adam._b1 Adam._b2 Adam._eps Adam._t Adam._m Adam._v].
    change (Np.map (fun g0 => (1 - b1) * g0) (Array g))
      with (Array (List.map (fun gi => (1 - b1) * gi) g)).
    rewrite (add_decayed b1 m _) by (rewrite length_map; exact Hm).
    cbn [Optimizer.vars Optimizer.set_vars Optimizer.lr Adam.set_t Adam.set_m
         Adam._b1 Adam._b2 Adam._eps Adam._t Adam._m Adam._v Np.map square]. unfold add.
    rewrite broadcast_mismatch by (rewrite ?length_map; lia). reflexivity.
Qed.

(** Optimizers that have seen three elements, on the example network of
    five. *)
Lemma step_with_state_of_another_length_witness :
  Optimizer.step (Optimizer.make 1 (Momentum.Vars 0.5 (Array [1; 2; 3])), example_net)
  = (Raise ValueError,
     (Optimizer.make 1 (Momentum.Vars 0.5 (Array [1; 2; 3])), example_net)) /\
  Optimizer.step
    (Optimizer.make 1 (RMSProp.Vars 0.5 0 0 (Array [1; 1; 1; 1; 1]) (Array [1; 2; 3])),
     example_net)
  = (Raise ValueError,
     (Optimizer.make 1
        (RMSProp.Vars 0.5 0 0 (Array [0.625; 0.625; 1; 1; 2.5]) (Array [1; 2; 3])),
      example_net)) /\
  @Optimizer.step _ (@Adam.impl exact_pow)
    (Optimizer.make 1 (Adam.Vars 0.9 0.999 0 7 (Array [1; 2; 3]) (Array [1; 2; 3])),
     example_net)
  = (Raise ValueError,
     (Optimizer.make 1 (Adam.Vars 0.9 0.999 0 8 (Array [1; 2; 3]) (Array [1; 2; 3])),
      example_net)).
Proof.
  pose proof (step_with_state_of_another_length exact_pow example_net 3
                ltac:(discriminate) ltac:(cbn; lia) ltac:(cbn; lia) ltac:(lia))
    as (HM & _ & HR & HA & _).
  split; [|split].
  - exact (HM 1 0.5 [1; 2; 3] eq_refl).
  - exact (HR 1 0.5 0 0 (Array [1; 1; 1; 1; 1]) [1; 2; 3] eq_refl eq_refl).
  - exact (HA 1 0.9 0.999 0 7%Z [1; 2; 3] (Array [1; 2; 3]) eq_refl).
Defined.

(** ** The mean squares never go negative *)

Lemma map_all : forall (P Q : float -> Prop) h a,
  (forall x, P x -> Q (h x)) -> tensor_all P a -> tensor_all Q (Np.map h a).
Proof.
  intros P Q h [x|xs] H Ha; cbn in *; [auto|].
  induction Ha; cbn; constructor; auto.
Qed.

Lemma Forall_zip_with : forall (P Q R : float -> Prop) f xs ys,
  (forall x y, P x -> Q y -> R (f x y)) -> Forall P xs -> Forall Q ys ->
  Forall R (zip_with f xs ys).
Proof.
  intros P Q R f xs ys H Hx. revert ys.
  induction Hx as [|x xs Hp _ IH]; intros ys Hy; [constructor|].
  destruct Hy as [|y ys Hq Hy]; cbn; constructor; auto.
Qed.

Lemma Forall_map_float : forall (P Q : float -> Prop) (h : float -> float) xs,
  (forall x, P x -> Q (h x)) -> Forall P xs -> Forall Q (List.map h xs).
Proof. intros P Q h xs H Hx. induction Hx; cbn; constructor; auto. Qed.

(** What holds of the elements of both operands passes to the result of
    a broadcast operation. *)
Lemma broadcast_all : forall (P Q R : float -> Prop) f a b r,
  (forall x y, P x -> Q y -> R (f x y)) ->
  tensor_all P a -> tensor_all Q b -> broadcast f a b = Ok r -> tensor_all R r.
Proof.
  intros P Q R f [x|xs] [y|ys] r H Ha Hb E; cbn in *.
  - inversion E; subst. cbn. auto.
  - inversion E; subst. cbn. apply (Forall_map_float Q); auto.
  - inversion E; subst. cbn. apply (Forall_map_float P); auto.
  - destruct (length xs =? length ys)%nat.
    + inversion E; subst. cbn. apply (Forall_zip_with P Q); auto.
    + destruct xs as [|x [|x' xs]]; destruct ys as [|y [|y' ys]];
        try discriminate E; inversion E; subst; cbn [tensor_all List.map];
        repeat match goal with
               | Hf : Forall _ (_ :: _) |- _ => inversion Hf; subst; clear Hf
               end;
        repeat (constructor; auto);
        try (apply (Forall_map_float Q); [|assumption]; intros z Hz; apply H; assumption);
        try (apply (Forall_map_float P); [|assumption]; intros z Hz; apply H; assumption).
Qed.

(** A float that [0 <=] holds of is a zero or has its sign bit clear. *)
Lemma leb_zero_SF : forall x, (0 <=? x) = true ->
  sign_clear (Prim2SF x) \/ Prim2SF x = S754_zero true.
Proof.
  intros x H. rewrite FloatAxioms.leb_spec in H.
  change (Prim2SF 0) with (S754_zero false) in H.
  destruct (Prim2SF x) as [s| s| |s m e]; cbn in *.
  - destruct s; auto.
  - destruct s; [discriminate|auto].
  - discriminate.
  - destruct s; [discriminate|auto].
Qed.

Lemma ltb_zero_SF : forall x, (0 <? x) = true -> sign_clear (Prim2SF x).
Proof.
  intros x H. rewrite FloatAxioms.ltb_spec in H.
  change (Prim2SF 0) with (S754_zero false) in H.
  destruct (Prim2SF x) as [s| s| |s m e]; cbn in *; try discriminate;
    destruct s; try discriminate; reflexivity.
Qed.

Lemma sign_clear_not_below_zero : forall x, sign_clear (Prim2SF x) -> (x <? 0) = false.
Proof.
  intros x H. rewrite FloatAxioms.ltb_spec. change (Prim2SF 0) with (S754_zero false).
  destruct (Prim2SF x) as [s| s| |s m e]; cbn in *; subst; reflexivity.
Qed.

(** [c * x] for [0 <= c] and [x] of clear sign is of clear sign or [-0.0]. *)
Lemma SFmul_weak : forall c x,
  sign_clear c \/ c = S754_zero true -> sign_clear x ->
  sign_clear (SFmul prec emax c x) \/ SFmul prec emax c x = S754_zero true.
Proof.
  intros c x [Hc|Hc] Hx.
  - left. apply SFmul_sign_clear; assumption.
  - subst c. destruct x as [s| s| |s m e]; cbn in *; subst; auto.
Qed.

Lemma SFadd_weak_sign_clear : forall a b,
  sign_clear a \/ a = S754_zero true -> sign_clear b ->
  sign_clear (SFadd prec emax a b).
Proof.
  intros a b [Ha|Ha] Hb.
  - destruct a as [s| s| |s m e]; destruct b as [s'| s'| |s' m' e']; cbn in *; subst;
      cbn; auto.
    unfold binary_round. destruct (shl_align _ _ _) as [mz ez].
    apply binary_round_aux_sign_clear.
  - subst a. destruct b as [s'| s'| |s' m' e']; cbn in *; subst; cbn; auto.
Qed.

(** One term of the running average: [c * x + d * (g * g)] keeps the sign
    clear. *)
Lemma mean_square_sign_clear : forall c d x g, (0 <=? c) = true -> (0 <? d) = true ->
  sign_clear (Prim2SF x) -> sign_clear (Prim2SF (c * x + d * (g * g))).
Proof.
  intros c d x g Hc Hd Hx. rewrite FloatAxioms.add_spec.
  apply SFadd_weak_sign_clear.
  - rewrite FloatAxioms.mul_spec. apply SFmul_weak; [apply leb_zero_SF, Hc|exact Hx].
  - apply scaled_square_sign_clear, ltb_zero_SF, Hd.
Qed.

Lemma mean_square_tensor : forall c d st grad r, (0 <=? c) = true -> (0 <? d) = true ->
  tensor_sign_clear st ->
  add (Np.map (fun x => c * x) st) (Np.map (fun g => d * g) (square grad)) = Ok r ->
  tensor_sign_clear r.
Proof.
  intros c d st grad r Hc Hd Hst E.
  assert (Hw : forall x y,
            (sign_clear (Prim2SF x) \/ Prim2SF x = S754_zero true) ->
            sign_clear (Prim2SF y) -> sign_clear (Prim2SF (x + y))).
  { intros x y Hx Hy. rewrite FloatAxioms.add_spec. apply SFadd_weak_sign_clear; assumption. }
  refine (broadcast_all (fun x => sign_clear (Prim2SF x) \/ Prim2SF x = S754_zero true)
            (fun y => sign_clear (Prim2SF y)) (fun z => sign_clear (Prim2SF z))
            PrimFloat.add _ _ r Hw _ _ E).
  - apply (map_all (fun a => sign_clear (Prim2SF a))); [|exact Hst].
    intros x Hx. rewrite FloatAxioms.mul_spec. apply SFmul_weak; [apply leb_zero_SF, Hc|exact Hx].
  - apply (map_all (fun a => sign_clear (Prim2SF a))).
    + intros x Hx. rewrite FloatAxioms.mul_spec.
      apply SFmul_sign_clear; [apply ltb_zero_SF, Hd|exact Hx].
    + unfold square. apply (map_all (fun a => True)).
      * intros x _. rewrite FloatAxioms.mul_spec. apply SFmul_square_sign_clear.
      * destruct grad as [x|xs]; cbn; auto. apply Forall_forall. intros; exact Logic.I.
Qed.

Lemma tensor_sign_clear_not_below_zero : forall t, tensor_sign_clear t ->
  tensor_all (fun x => (x <? 0) = false) t.
Proof.
  intros [x|xs] H; cbn in *; [apply sign_clear_not_below_zero, H|].
  induction H; constructor; auto using sign_clear_not_below_zero.
Qed.

(** One call of [Adam._compute_step], whatever it is given and whether it
    returns or raises. *)
Lemma Adam_compute_step_v : forall (L : Libm) grad (self : Optimizer.t Adam.vars),
  (0 <=? Adam._b2 (Optimizer.vars self)) = true ->
  (0 <? 1 - Adam._b2 (Optimizer.vars self)) = true ->
  tensor_sign_clear (Adam._v (Optimizer.vars self)) ->
  let self' := snd (Optimizer._compute_step grad self) in
  Adam._b2 (Optimizer.vars self') = Adam._b2 (Optimizer.vars self) /\
  tensor_sign_clear (Adam._v (Optimizer.vars self')).
Proof.
  intros L grad [lr [b1 b2 eps t m v]] Hb Hc Hv.
  cbn [Optimizer.vars Adam._b2 Adam._v] in *.
  unfold Optimizer._compute_step, Adam.impl, Adam._compute_step, Adam.assign,
    bind, get, lift.
  cbn [Optimizer.vars Optimizer.set_vars Optimizer.lr Adam.set_t Adam.set_m Adam.set_v
       Adam._b1 Adam._b2 Adam._eps Adam._t Adam._m Adam._v].
  destruct (add (Np.map (fun x => b1 * x) m) _) as [m'|e]; [|cbn; auto].
  cbn [Optimizer.vars Optimizer.set_vars Optimizer.lr Adam.set_t Adam.set_m Adam.set_v
       Adam._b1 Adam._b2 Adam._eps Adam._t Adam._m Adam._v].
  destruct (add (Np.map (fun x => b2 * x) v) _) as [v'|e] eqn:Ev; [|cbn; auto].
  apply (mean_square_tensor b2 (1 - b2) v grad v' Hb Hc Hv) in Ev.
  cbn [Optimizer.vars Optimizer.set_vars Optimizer.lr Adam.set_t Adam.set_m Adam.set_v
       Adam._b1 Adam._b2 Adam._eps Adam._t Adam._m Adam._v].
  destruct (divide _ _); cbn; auto.
Qed.

(** X8: For [0 <= beta2] and [1 - beta2 > 0]: the second moment of an [Adam]
    has no negative element and no [-0.0], after any number of calls of
    [_compute_step] on any gradients, whether a call raised or not; the
    constructor's 0 is where it starts.  So [np.sqrt] is never handed a
    negative number. *)
Theorem Adam_second_moment_never_negative :
  forall (L : Libm) (self : Optimizer.t Adam.vars) (grads : list (list float)),
  (0 <=? Adam._b2 (Optimizer.vars self)) = true ->
  (0 <? 1 - Adam._b2 (Optimizer.vars self)) = true ->
  tensor_sign_clear (Adam._v (Optimizer.vars self)) ->
  let v' := Adam._v (Optimizer.vars (snd (compute_steps grads self))) in
  tensor_sign_clear v' /\ tensor_all (fun x => (x <? 0) = false) v'.
Proof.
  intros L self grads Hb Hc Hv v'.
  assert (H : tensor_sign_clear v'); [|split; [exact H|apply tensor_sign_clear_not_below_zero, H]].
  unfold v'. clear v'. revert self Hb Hc Hv.
  induction grads as [|g grads IH]; intros self Hb Hc Hv; [exact Hv|].
  rewrite compute_steps_cons.
  pose proof (Adam_compute_step_v L (Array g) self Hb Hc Hv) as [Hb2 Hv1]. cbn zeta in *.
  destruct (Optimizer._compute_step (Array g) self) as [[u|e] s1]; cbn [snd] in *;
    [|exact Hv1].
  rewrite <- Hb2 in Hb, Hc. specialize (IH s1 Hb Hc Hv1).
  destruct (compute_steps grads s1) as [[us|e] s2]; exact IH.
Qed.

(** A new [Adam] with the default coefficients, on a gradient of two
    elements and then on one of three, which raises. *)
Lemma Adam_second_moment_never_negative_witness :
  let self := Optimizer.make 0.001 (Adam.Vars 0.9 0.999 1e-8 0 (Scalar 0) (Scalar 0)) in
  tensor_sign_clear
    (Adam._v (Optimizer.vars (snd (@compute_steps _ (@Adam.impl exact_pow)
                                     [[1; -2]; [3; 4; 5]] self)))).
Proof.
  exact (proj1 (Adam_second_moment_never_negative exact_pow
                  (Optimizer.make 0.001 (Adam.Vars 0.9 0.999 1e-8 0 (Scalar 0) (Scalar 0)))
                  [[1; -2]; [3; 4; 5]] eq_refl eq_refl eq_refl)).
Defined.

(** One call of [RMSProp._compute_step], whatever it is given and whether
    it returns or raises. *)
Lemma RMSProp_compute_step_ms : forall grad (self : Optimizer.t RMSProp.vars),
  (0 <=? RMSProp._decay (Optimizer.vars self)) = true ->
  (0 <? 1 - RMSProp._decay (Optimizer.vars self)) = true ->
  tensor_sign_clear (RMSProp._ms (Optimizer.vars self)) ->
  let self' := snd (Optimizer._compute_step grad self) in
  RMSProp._decay (Optimizer.vars self') = RMSProp._decay (Optimizer.vars self) /\
  tensor_sign_clear (RMSProp._ms (Optimizer.vars self')).
Proof.
  intros grad [lr [decay momentum eps ms mom]] Hb Hc Hv.
  cbn [Optimizer.vars RMSProp._decay RMSProp._ms] in *.
  unfold Optimizer._compute_step, RMSProp.impl, RMSProp._compute_step, RMSProp.assign,
    bind, get, lift, ret.
  cbn [Optimizer.vars Optimizer.set_vars Optimizer.lr RMSProp.set_ms RMSProp.set_mom
       RMSProp._decay RMSProp._momentum RMSProp._eps RMSProp._ms RMSProp._mom].
  destruct (add (Np.map (fun x => decay * x) ms) _) as [ms'|e] eqn:Ev; [|cbn; auto].
  apply (mean_square_tensor decay (1 - decay) ms grad ms' Hb Hc Hv) in Ev.
  cbn [Optimizer.vars Optimizer.set_vars Optimizer.lr RMSProp.set_ms RMSProp.set_mom
       RMSProp._decay RMSProp._momentum RMSProp._eps RMSProp._ms RMSProp._mom].
  destruct (divide _ _) as [q|e]; [|cbn; auto].
  destruct (add _ q); cbn; auto.
Qed.

(** X9: For [0 <= decay] and [1 - decay > 0]: the mean square of an [RMSProp]
    has no negative element and no [-0.0], after any number of calls of
    [_compute_step] on any gradients, whether a call raised or not; the
    constructor's 0 is where it starts. *)
Theorem RMSProp_mean_square_never_negative :
  forall (self : Optimizer.t RMSProp.vars) (grads : list (list float)),
  (0 <=? RMSProp._decay (Optimizer.vars self)) = true ->
  (0 <? 1 - RMSProp._decay (Optimizer.vars self)) = true ->
  tensor_sign_clear (RMSProp._ms (Optimizer.vars self)) ->
  let ms' := RMSProp._ms (Optimizer.vars (snd (compute_steps grads self))) in
  tensor_sign_clear ms' /\ tensor_all (fun x => (x <? 0) = false) ms'.
Proof.
  intros self grads Hb Hc Hv ms'.
  assert (H : tensor_sign_clear ms');
    [|split; [exact H|apply tensor_sign_clear_not_below_zero, H]].
  unfold ms'. clear ms'. revert self Hb Hc Hv.
  induction grads as [|g grads IH]; intros self Hb Hc Hv; [exact Hv|].
  rewrite compute_steps_cons.
  pose proof (RMSProp_compute_step_ms (Array g) self Hb Hc Hv) as [Hb2 Hv1]. cbn zeta in *.
  destruct (Optimizer._compute_step (Array g) self) as [[u|e] s1]; cbn [snd] in *;
    [|exact Hv1].
  rewrite <- Hb2 in Hb, Hc. specialize (IH s1 Hb Hc Hv1).
  destruct (compute_steps grads s1) as [[us|e] s2]; exact IH.
Qed.

(** A new [RMSProp] with the default coefficients, on two gradients. *)
Lemma RMSProp_mean_square_never_negative_witness :
  let self := Optimizer.make 0.01 (RMSProp.Vars 0.99 0 1e-8 (Scalar 0) (Scalar 0)) in
  tensor_sign_clear
    (RMSProp._ms (Optimizer.vars (snd (compute_steps [[1; -2]; [-3; 0]] self)))).
Proof.
  exact (proj1 (RMSProp_mean_square_never_negative
                  (Optimizer.make 0.01 (RMSProp.Vars 0.99 0 1e-8 (Scalar 0) (Scalar 0)))
                  [[1; -2]; [-3; 0]] eq_refl eq_refl eq_refl)).
Defined.

(** ** RMSProp: the first step *)

(** A zero added to a float of clear sign gives that float. *)
Lemma add_zero_exact : forall z y, is_zero z = true -> sign_clear (Prim2SF y) -> z + y = y.
Proof.
  intros z y Hz Hy. apply is_zero_SF in Hz. destruct Hz as [s Hz].
  apply Prim2SF_inj. rewrite FloatAxioms.add_spec, Hz.
  destruct (Prim2SF y) as [s'| s'| |s' m e]; cbn in *; subst; try reflexivity.
  destruct s; reflexivity.
Qed.

Lemma zip_with_same : forall (f : float -> float -> float) xs,
  zip_with f xs xs = List.map (fun x => f x x) xs.
Proof. induction xs as [|x xs IH]; cbn; [reflexivity|]. rewrite IH. reflexivity. Qed.

Lemma opp_feq : forall x y, feq x y = true -> feq (- x) (- y) = true.
Proof.
  intros x y H. apply feq_cases in H. destruct H as [->|[Hx Hy]]; [apply feq_refl|].
  apply is_zero_SF in Hx, Hy. destruct Hx as [s Hx], Hy as [s' Hy].
  apply feq_zeros; apply is_zero_SF; rewrite FloatAxioms.opp_spec.
  - rewrite Hx. cbn. eauto.
  - rewrite Hy. cbn. eauto.
Qed.

(** X10: The first call of a new [RMSProp] with finite [decay] and [momentum]
    and [1 - decay > 0]: the mean square becomes exactly
    [(1 - decay) * g * g], the momentum buffer is, as a number,
    [lr * g / sqrt((1 - decay) * g * g + eps)], and the update is the
    negated buffer.  The products with the initial zeros drop out; what
    they can change is the sign of a zero. *)
Theorem RMSProp_first_step : forall lr decay momentum eps g,
  is_finite decay = true -> (0 <? 1 - decay) = true -> is_finite momentum = true ->
  let ms := List.map (fun gi => (1 - decay) * (gi * gi)) g in
  let q := List.map
             (fun gi => lr * gi / PrimFloat.sqrt ((1 - decay) * (gi * gi) + eps)) g in
  exists mom,
    Optimizer._compute_step (Array g)
      (Optimizer.make lr (RMSProp.Vars decay momentum eps (Scalar 0) (Scalar 0)))
    = (Ok (Array (List.map PrimFloat.opp mom)),
       Optimizer.make lr (RMSProp.Vars decay momentum eps (Array ms) (Array mom))) /\
    feq_list mom q /\
    feq_list (List.map PrimFloat.opp mom) (List.map PrimFloat.opp q).
Proof.
  intros lr decay momentum eps g Hd Hc Hm ms q.
  pose proof (RMSProp_compute_step_first lr decay momentum eps g) as H. cbn zeta in H.
  assert (Hms : List.map (fun gi => decay * 0 + (1 - decay) * (gi * gi)) g = ms).
  { unfold ms. apply map_ext. intros gi. apply add_zero_exact.
    - apply (mul_finite_zero decay 0 Hd). reflexivity.
    - apply scaled_square_sign_clear, ltb_zero_SF, Hc. }
  rewrite Hms in H. unfold ms in H. rewrite zip_with_map_r, zip_with_same in H.
  eexists. split; [exact H|].
  assert (Hq : feq_list
                 (List.map (fun x => momentum * 0
                              + lr * x / PrimFloat.sqrt ((1 - decay) * (x * x) + eps)) g) q).
  { unfold q. apply feq_list_map. intros gi. apply add_zero_l.
    apply (mul_finite_zero momentum 0 Hm). reflexivity. }
  split; [exact Hq|].
  clear H. induction Hq; cbn; constructor; [apply opp_feq; assumption|assumption].
Qed.

(** The defaults on a gradient of three elements. *)
Lemma RMSProp_first_step_witness :
  exists mom,
    Optimizer._compute_step (Array [1; -2; 0])
      (Optimizer.make RMSProp.default_lr
         (RMSProp.Vars RMSProp.default_decay RMSProp.default_momentum
            RMSProp.default_epsilon (Scalar 0) (Scalar 0)))
    = (Ok (Array (List.map PrimFloat.opp mom)),
       Optimizer.make RMSProp.default_lr
         (RMSProp.Vars RMSProp.default_decay RMSProp.default_momentum
            RMSProp.default_epsilon
            (Array (List.map (fun gi => (1 - RMSProp.default_decay) * (gi * gi)) [1; -2; 0]))
            (Array mom))).
Proof.
  destruct (RMSProp_first_step RMSProp.default_lr RMSProp.default_decay
              RMSProp.default_momentum RMSProp.default_epsilon [1; -2; 0]
              eq_refl eq_refl eq_refl) as (mom & H & _).
  exists mom. exact H.
Defined.

(** ** Schedulers: multiplying the rate by 1.0 *)

Lemma mul_one_l_SF : forall x, SpecFloat.valid_binary prec emax x = true ->
  SFmul prec emax (S754_finite false 4503599627370496 (-52)) x = x.
Proof.
  intros [s| s| |s m e] Hv; try reflexivity.
  cbn [SFmul xorb]. unfold SpecFloat.valid_binary, bounded, canonical_mantissa in Hv.
  apply andb_true_iff in Hv. destruct Hv as [Hc Hb].
  apply Z.eqb_eq in Hc. apply Z.leb_le in Hb.
  unfold binary_round_aux.
  assert (Hshift : shr_fexp prec emax (Zpos (4503599627370496 * m)) (-52 + e) loc_Exact
                   = (Build_shr_record (Zpos m) false false, e)).
  { unfold shr_fexp.
    assert (Hd : Zdigits2 (Zpos (4503599627370496 * m)) = (Zpos (digits2_pos m) + 52)%Z).
    { cbn [Pos.mul Zdigits2 digits2_pos]. rewrite !Pos2Z.inj_succ. lia. }
    rewrite Hd.
    replace (Zpos (digits2_pos m) + 52 + (-52 + e))%Z with (Zpos (digits2_pos m) + e)%Z by lia.
    rewrite Hc. replace (e - (-52 + e))%Z with 52%Z by lia.
    unfold shr. cbn [SpecFloat.iter_pos shr_1 shr_record_of_loc Pos.mul]. f_equal. lia. }
  rewrite Hshift. cbn [shr_m loc_of_shr_record round_nearest_even].
  assert (Hshift2 : shr_fexp prec emax (Zpos m) e loc_Exact
                    = (Build_shr_record (Zpos m) false false, e)).
  { unfold shr_fexp. cbn [Zdigits2]. rewrite Hc, Z.sub_diag. reflexivity. }
  rewrite Hshift2. cbn [shr_m].
  replace (e <=? emax - prec)%Z with true by (symmetry; apply Z.leb_le; exact Hb).
  destruct s; reflexivity.
Qed.

(** [1.0 * x] is [x], for every float. *)
Lemma mul_one_l : forall x : float, 1 * x = x.
Proof.
  intros x. apply Prim2SF_inj. rewrite FloatAxioms.mul_spec.
  change (Prim2SF 1) with (S754_finite false 4503599627370496 (-52)).
  apply mul_one_l_SF, Prim2SF_valid.
Qed.

(** ** Schedulers: the rate after any number of calls *)

Section SchedulerClosedForm.

Context {P : Type} {I : LRScheduler.Impl P} {V : Type}.

(** A scheduler that applies [f] to the live rate at the counter values
    where [fires] holds, and leaves the rate alone otherwise, has applied
    [f] once per firing value met so far. *)
Lemma calls_closed_form : forall (p : P) (f : float -> float) (fires : Z -> bool),
  (forall (self : LRScheduler.t P) (optim : Optimizer.t V),
     LRScheduler.params self = p ->
     LRScheduler._compute_lr self optim
     = Ok (if fires (LRScheduler._t self) then f (Optimizer.lr optim)
           else Optimizer.lr optim)) ->
  forall n (self : LRScheduler.t P) (optim : Optimizer.t V),
  LRScheduler.params self = p -> LRScheduler._t self = 0%Z ->
  LRScheduler.calls n (self, optim) =
  (Ok (List.map (fun i => Nat.iter (hits fires i) f (Optimizer.lr optim)) (seq 1 n)),
   (LRScheduler.set_t (Z.of_nat n) self,
    Optimizer.set_lr (Nat.iter (hits fires n) f (Optimizer.lr optim)) optim)).
Proof.
  intros p f fires Hlr. induction n as [|n IH]; intros self optim Hp Ht.
  - cbn [LRScheduler.calls seq List.map hits Nat.iter nat_rect]. unfold ret.
    rewrite set_lr_same. destruct self as [i t q]. cbn in Ht. subst t. reflexivity.
  - rewrite calls_snoc, (IH self optim Hp Ht).
    pose proof (step_outcome (LRScheduler.set_t (Z.of_nat n) self)
                  (Optimizer.set_lr (Nat.iter (hits fires n) f (Optimizer.lr optim)) optim)) as Ho.
    cbn zeta in Ho. rewrite Hlr in Ho by (destruct self; exact Hp).
    rewrite Ho. clear Ho.
    replace (LRScheduler._t (LRScheduler.set_t (Z.of_nat n) self) + 1)%Z
      with (Z.of_nat (S n)) by (destruct self; cbn; lia).
    assert (Hk : (if fires (Z.of_nat (S n))
                  then f (Optimizer.lr (Optimizer.set_lr (Nat.iter (hits fires n) f (Optimizer.lr optim)) optim))
                  else Optimizer.lr (Optimizer.set_lr (Nat.iter (hits fires n) f (Optimizer.lr optim)) optim))
                 = Nat.iter (hits fires (S n)) f (Optimizer.lr optim)).
    { cbn [hits]. destruct optim as [l v]. cbn [Optimizer.lr Optimizer.set_lr].
      destruct (fires (Z.of_nat (S n))).
      - rewrite Nat.add_1_r. reflexivity.
      - rewrite Nat.add_0_r. reflexivity. }
    cbn [LRScheduler._t LRScheduler.set_t] in *. rewrite Hk.
    rewrite seq_S, map_app. cbn [List.map Nat.add].
    destruct self as [i t q]; destruct optim as [l v]. reflexivity.
Qed.

End SchedulerClosedForm.

(** *** StepLR *)

(** Of the values [1..n], [n / s] are multiples of [s]. *)
Lemma hits_multiples : forall s, (1 <= s)%Z -> forall n,
  hits (fun t => (t mod s =? 0)%Z) n = Z.to_nat (Z.of_nat n / s).
Proof.
  intros s Hs. induction n as [|n IH]; [reflexivity|].
  cbn [hits]. rewrite IH. clear IH.
  pose proof (Z.div_mod (Z.of_nat n) s ltac:(lia)) as E.
  pose proof (Z.mod_pos_bound (Z.of_nat n) s ltac:(lia)) as B.
  pose proof (Z.div_pos (Z.of_nat n) s ltac:(lia) ltac:(lia)) as Q.
  set (q := (Z.of_nat n / s)%Z) in *. set (r := (Z.of_nat n mod s)%Z) in *.
  destruct (Z.eq_dec (r + 1) s) as [Hr|Hr].
  - assert (Hd : (Z.of_nat (S n) / s = q + 1)%Z).
    { symmetry. apply (Z.div_unique_pos _ _ _ 0); lia. }
    assert (Hm : (Z.of_nat (S n) mod s = 0)%Z).
    { symmetry. apply (Z.mod_unique_pos _ _ (q + 1)); lia. }
    rewrite Hd, Hm. cbn. lia.
  - assert (Hd : (Z.of_nat (S n) / s = q)%Z).
    { symmetry. apply (Z.div_unique_pos _ _ _ (r + 1)); lia. }
    assert (Hm : (Z.of_nat (S n) mod s = r + 1)%Z).
    { symmetry. apply (Z.mod_unique_pos _ _ q); lia. }
    rewrite Hd, Hm. destruct (Z.eqb_spec (r + 1) 0); lia.
Qed.

Lemma map_seq_ext : forall (A : Type) (f g : nat -> A) n,
  (forall i, f i = g i) -> List.map f (seq 1 n) = List.map g (seq 1 n).
Proof. intros A f g n H. apply map_ext. exact H. Qed.

(** X11: A constructed [StepLR] called [n] times in a row: the [i]-th call
    returns the rate the optimizer had at the start, multiplied by [gamma]
    once for every multiple of [step_size] among [1..i]; no call raises,
    and the optimizer is left with the last of these rates. *)
Theorem StepLR_rate_after_calls : forall V (optimizer : Optimizer.t V) step_size gamma self,
  StepLR.__init__ optimizer step_size gamma = Ok self ->
  forall n (optim : Optimizer.t V),
  let rate := fun i : nat =>
    Nat.iter (Z.to_nat (Z.of_nat i / step_size)) (PrimFloat.mul gamma) (Optimizer.lr optim) in
  LRScheduler.calls n (self, optim) =
  (Ok (List.map rate (seq 1 n)),
   (LRScheduler.set_t (Z.of_nat n) self, Optimizer.set_lr (rate n) optim)).
Proof.
  intros V optimizer step_size gamma self Hinit n optim rate.
  unfold StepLR.__init__ in Hinit.
  destruct (Z.leb_spec 1 step_size) as [Hs|]; [|discriminate].
  inversion Hinit as [Hself]. clear Hinit Hself.
  set (self0 := LRScheduler.__init__ optimizer (StepLR.Params step_size gamma)).
  pose proof (@calls_closed_form StepLR.params StepLR.impl V
                (StepLR.Params step_size gamma) (PrimFloat.mul gamma)
                (fun t => (t mod step_size =? 0)%Z)) as H.
  assert (Hlr : forall (s : LRScheduler.t StepLR.params) (o : Optimizer.t V),
            LRScheduler.params s = StepLR.Params step_size gamma ->
            LRScheduler._compute_lr s o
            = Ok (if (LRScheduler._t s mod step_size =? 0)%Z
                  then gamma * Optimizer.lr o else Optimizer.lr o)).
  { intros s o Hp. unfold LRScheduler._compute_lr, StepLR.impl, StepLR._compute_lr.
    cbn zeta. rewrite Hp. cbn [StepLR._step_size StepLR._gamma].
    destruct (Z.eqb_spec step_size 0); [lia|].
    unfold LRScheduler.get_current_lr.
    destruct (_ =? 0)%Z; [reflexivity|]. rewrite mul_one_l. reflexivity. }
  rewrite (H Hlr n self0 optim) by reflexivity.
  unfold rate. rewrite (hits_multiples step_size Hs n).
  f_equal. f_equal. apply map_ext. intros i. rewrite (hits_multiples step_size Hs i).
  reflexivity.
Qed.

(** *** MultiStepLR *)

Lemma strictly_increasing_tail : forall x l,
  strictly_increasing (x :: l) -> strictly_increasing l.
Proof. intros x [|y l] H; [exact Logic.I|exact (proj2 H)]. Qed.

Lemma strictly_increasing_head : forall l x,
  strictly_increasing (x :: l) -> Forall (fun y => (x < y)%Z) l.
Proof.
  induction l as [|y l IH]; intros x H; [constructor|].
  destruct H as [Hxy Hl]. constructor; [exact Hxy|].
  apply (Forall_impl _ (P := fun z => (y < z)%Z)); [intros z Hz; lia|].
  apply IH. exact Hl.
Qed.

(** A strictly increasing list holds a value at most once. *)
Lemma strictly_increasing_count : forall k ms, strictly_increasing ms ->
  length (filter (Z.eqb k) ms) = if existsb (Z.eqb k) ms then 1%nat else 0%nat.
Proof.
  intros k. induction ms as [|x l IH]; intros H; [reflexivity|].
  pose proof (strictly_increasing_head l x H) as Hhd.
  specialize (IH (strictly_increasing_tail x l H)).
  cbn [filter existsb]. destruct (Z.eqb_spec k x) as [E|E]; cbn [orb length].
  - subst k. rewrite IH.
    assert (Hn : existsb (Z.eqb x) l = false).
    { clear IH H. induction Hhd as [|y l Hy _ IHl]; [reflexivity|].
      cbn [existsb]. rewrite IHl. destruct (Z.eqb_spec x y); [lia|reflexivity]. }
    rewrite Hn. reflexivity.
  - exact IH.
Qed.

Lemma filter_range_succ : forall n ms,
  length (filter (fun m => (1 <=? m)%Z && (m <=? Z.of_nat (S n))%Z) ms) =
  (length (filter (fun m => (1 <=? m)%Z && (m <=? Z.of_nat n)%Z) ms)
   + length (filter (Z.eqb (Z.of_nat (S n))) ms))%nat.
Proof.
  intros n. induction ms as [|x l IH]; [reflexivity|].
  cbn [filter].
  destruct (Z.leb_spec 1 x); destruct (Z.leb_spec x (Z.of_nat (S n)));
    destruct (Z.leb_spec x (Z.of_nat n)); destruct (Z.eqb_spec (Z.of_nat (S n)) x);
    cbn [andb length]; try lia.
Qed.

(** Of the values [1..n], as many are milestones as there are milestones
    in that range. *)
Lemma hits_milestones : forall ms, strictly_increasing ms -> forall n,
  hits (fun t => existsb (Z.eqb t) ms) n
  = length (filter (fun m => (1 <=? m)%Z && (m <=? Z.of_nat n)%Z) ms).
Proof.
  intros ms Hms. induction n as [|n IH].
  - cbn [hits]. induction ms as [|x l IHl]; [reflexivity|].
    cbn [filter]. specialize (IHl (strictly_increasing_tail x l Hms)).
    destruct (Z.leb_spec 1 x); destruct (Z.leb_spec x (Z.of_nat 0)); cbn [andb]; try exact IHl.
    lia.
  - cbn [hits]. rewrite IH, filter_range_succ, (strictly_increasing_count _ ms Hms).
    reflexivity.
Qed.

(** X12: A constructed [MultiStepLR] called [n] times in a row: the [i]-th call
    returns the rate the optimizer had at the start, multiplied by [gamma]
    once for every milestone among [1..i]; milestones below 1 never take
    effect, no call raises, and the optimizer is left with the last of
    these rates. *)
Theorem MultiStepLR_rate_after_calls : forall V (optimizer : Optimizer.t V) milestones gamma self,
  MultiStepLR.__init__ optimizer milestones gamma = Ok self ->
  forall n (optim : Optimizer.t V),
  let passed := fun i : nat =>
    length (filter (fun m => (1 <=? m)%Z && (m <=? Z.of_nat i)%Z)
              (MultiStepLR._milestones (LRScheduler.params self))) in
  let rate := fun i : nat =>
    Nat.iter (passed i) (PrimFloat.mul gamma) (Optimizer.lr optim) in
  LRScheduler.calls n (self, optim) =
  (Ok (List.map rate (seq 1 n)),
   (LRScheduler.set_t (Z.of_nat n) self, Optimizer.set_lr (rate n) optim)).
Proof.
  intros V optimizer milestones gamma self Hinit n optim passed rate.
  unfold MultiStepLR.__init__ in Hinit.
  destruct (comprehension int milestones) as [ms|e]; [|discriminate].
  destruct (MultiStepLR.increasing ms) eqn:Hinc; [|discriminate].
  destruct (forallb _ ms); [|discriminate].
  cbn [andb] in Hinit. inversion Hinit as [Hself]. clear Hinit.
  apply increasing_spec in Hinc.
  assert (Hlr : forall (s : LRScheduler.t MultiStepLR.params) (o : Optimizer.t V),
            LRScheduler.params s = MultiStepLR.Params ms gamma ->
            LRScheduler._compute_lr s o
            = Ok (if existsb (Z.eqb (LRScheduler._t s)) ms
                  then gamma * Optimizer.lr o else Optimizer.lr o)).
  { intros s o Hp. unfold LRScheduler._compute_lr, MultiStepLR.impl, MultiStepLR._compute_lr.
    cbn zeta. rewrite Hp. cbn [MultiStepLR._milestones MultiStepLR._gamma].
    unfold LRScheduler.get_current_lr.
    destruct (existsb _ ms); [reflexivity|]. rewrite mul_one_l. reflexivity. }
  pose proof (@calls_closed_form MultiStepLR.params MultiStepLR.impl V
                (MultiStepLR.Params ms gamma) (PrimFloat.mul gamma)
                (fun t => existsb (Z.eqb t) ms) Hlr n self optim) as H.
  subst self. rewrite H by reflexivity.
  unfold rate, passed. cbn [LRScheduler.params LRScheduler.__init__ MultiStepLR._milestones].
  rewrite (hits_milestones ms Hinc n).
  f_equal. f_equal. apply map_ext. intros i. rewrite (hits_milestones ms Hinc i).
  reflexivity.
Qed.

(** *** LinearLR *)

(** Of the values [1..n], those in the window [(start, start + decay]]. *)
Lemma hits_window : forall start decay n,
  hits (fun t => (start <? t)%Z && (t <=? start + decay)%Z) n
  = Z.to_nat (Z.min (Z.of_nat n) (start + decay) - Z.max 0 start).
Proof.
  intros start decay. induction n as [|n IH]; [cbn [hits]; lia|].
  cbn [hits]. rewrite IH.
  destruct (Z.ltb_spec start (Z.of_nat (S n)));
    destruct (Z.leb_spec (Z.of_nat (S n)) (start + decay)); cbn [andb]; lia.
Qed.

(** X13: A constructed [LinearLR] called [n] times in a row: the [i]-th call
    returns the rate the optimizer had at the start with [lr_delta] added,
    one rounded addition after the other, once for every value of [1..i]
    that lies in the window from [start_step + 1] to
    [start_step + decay_steps]; no call raises, and the optimizer is left
    with the last of these rates. *)
Theorem LinearLR_rate_after_calls : forall V (optimizer : Optimizer.t V) decay_steps final_lr
  start_step self,
  LinearLR.__init__ optimizer decay_steps final_lr start_step = Ok self ->
  forall n (optim : Optimizer.t V),
  let delta := LinearLR._lr_delta (LRScheduler.params self) in
  let rate := fun i : nat =>
    Nat.iter (Z.to_nat (Z.min (Z.of_nat i) (start_step + decay_steps) - Z.max 0 start_step))
      (fun r => r + delta) (Optimizer.lr optim) in
  LRScheduler.calls n (self, optim) =
  (Ok (List.map rate (seq 1 n)),
   (LRScheduler.set_t (Z.of_nat n) self, Optimizer.set_lr (rate n) optim)).
Proof.
  intros V optimizer decay_steps final_lr start_step self Hinit n optim delta rate.
  unfold LinearLR.__init__ in Hinit. cbn zeta in Hinit.
  destruct (negb (final_lr <? _)); [discriminate|].
  destruct (negb (0 <? decay_steps)%Z); [discriminate|].
  destruct (float_of_int decay_steps) as [d|e]; [|discriminate].
  inversion Hinit as [Hself]. clear Hinit.
  set (p := LinearLR.Params ((final_lr - LRScheduler.get_current_lr optimizer) / d)
              final_lr decay_steps start_step) in *.
  assert (Hlr : forall (s : LRScheduler.t LinearLR.params) (o : Optimizer.t V),
            LRScheduler.params s = p ->
            LRScheduler._compute_lr s o
            = Ok (if (start_step <? LRScheduler._t s)%Z
                     && (LRScheduler._t s <=? start_step + decay_steps)%Z
                  then Optimizer.lr o + LinearLR._lr_delta p else Optimizer.lr o)).
  { intros s o Hp. unfold LRScheduler._compute_lr, LinearLR.impl, LinearLR._compute_lr.
    cbn zeta. rewrite Hp. cbn [LinearLR._start_step LinearLR._decay_steps p].
    unfold LRScheduler.get_current_lr.
    destruct (_ <? _)%Z; [destruct (_ <=? _)%Z|]; reflexivity. }
  pose proof (@calls_closed_form LinearLR.params LinearLR.impl V p
                (fun r => r + LinearLR._lr_delta p)
                (fun t => (start_step <? t)%Z && (t <=? start_step + decay_steps)%Z)
                Hlr n self optim) as H.
  subst self. rewrite H by reflexivity.
  unfold rate, delta. cbn [LRScheduler.params LRScheduler.__init__].
  rewrite (hits_window start_step decay_steps n).
  f_equal. f_equal. apply map_ext. intros i. rewrite (hits_window start_step decay_steps i).
  reflexivity.
Qed.

(** Halving every second call, from 1.0: the first five rates. *)
Lemma StepLR_rate_after_calls_witness :
  let optimizer := Optimizer.make 1 SGD.Vars in
  exists self,
    StepLR.__init__ optimizer 2 0.5 = Ok self /\
    LRScheduler.calls 5 (self, optimizer)
    = (Ok [1; 0.5; 0.5; 0.25; 0.25],
       (LRScheduler.set_t 5 self, Optimizer.set_lr 0.25 optimizer)).
Proof.
  exists (LRScheduler.__init__ (Optimizer.make 1 SGD.Vars) (StepLR.Params 2 0.5)).
  split; [reflexivity|].
  exact (StepLR_rate_after_calls SGD.vars (Optimizer.make 1 SGD.Vars) 2 0.5 _ eq_refl 5
           (Optimizer.make 1 SGD.Vars)).
Defined.

(** Milestones 0, 2 and 3 with [gamma] one half, from 1.0: the milestone 0
    is never reached, the others halve the rate. *)
Lemma MultiStepLR_rate_after_calls_witness :
  let optimizer := Optimizer.make 1 SGD.Vars in
  exists self,
    MultiStepLR.__init__ optimizer [PyInt 0; PyInt 2; PyInt 3] 0.5 = Ok self /\
    LRScheduler.calls 4 (self, optimizer)
    = (Ok [1; 0.5; 0.25; 0.25],
       (LRScheduler.set_t 4 self, Optimizer.set_lr 0.25 optimizer)).
Proof.
  exists (LRScheduler.__init__ (Optimizer.make 1 SGD.Vars)
            (MultiStepLR.Params [0; 2; 3]%Z 0.5)).
  split; [reflexivity|].
  exact (MultiStepLR_rate_after_calls SGD.vars (Optimizer.make 1 SGD.Vars)
           [PyInt 0; PyInt 2; PyInt 3] 0.5 _ eq_refl 4 (Optimizer.make 1 SGD.Vars)).
Defined.

(** From 1.0 to 0.5 in two steps that start after the first call. *)
Lemma LinearLR_rate_after_calls_witness :
  let optimizer := Optimizer.make 1 SGD.Vars in
  exists self,
    LinearLR.__init__ optimizer 2 0.5 1 = Ok self /\
    LRScheduler.calls 5 (self, optimizer)
    = (Ok [1; 0.75; 0.5; 0.5; 0.5],
       (LRScheduler.set_t 5 self, Optimizer.set_lr 0.5 optimizer)).
Proof.
  exists (LRScheduler.__init__ (Optimizer.make 1 SGD.Vars)
            (LinearLR.Params (-0.25) 0.5 2 1)).
  split; [vm_compute; reflexivity|].
  exact (LinearLR_rate_after_calls SGD.vars (Optimizer.make 1 SGD.Vars) 2 0.5 1 _
           eq_refl 5 (Optimizer.make 1 SGD.Vars)).
Defined.

(** ** LinearLR: the constructor *)

Lemma iter_xO_value : forall d m, Zpos (Pos.iter xO m d) = (Zpos m * 2 ^ Zpos d)%Z.
Proof.
  induction d as [|d IH] using Pos.peano_ind; intros m.
  - cbn. lia.
  - rewrite Pos.iter_succ, Pos2Z.inj_xO, IH, Pos2Z.inj_succ, Z.pow_succ_r by lia. lia.
Qed.

Lemma iter_xO_digits : forall d m,
  Zpos (digits2_pos (Pos.iter xO m d)) = (Zpos (digits2_pos m) + Zpos d)%Z.
Proof.
  induction d as [|d IH] using Pos.peano_ind; intros m.
  - cbn [Pos.iter digits2_pos]. lia.
  - rewrite Pos.iter_succ. cbn [digits2_pos]. rewrite Pos2Z.inj_succ, IH. lia.
Qed.

Lemma shl_align_value : forall m ex ez, (ez <= ex)%Z ->
  Zpos (fst (shl_align m ex ez)) = (Zpos m * 2 ^ (ex - ez))%Z.
Proof.
  intros m ex ez H. unfold shl_align.
  destruct (ez - ex)%Z as [|d|d] eqn:E; cbn [fst].
  - replace (ex - ez)%Z with 0%Z by lia. lia.
  - lia.
  - rewrite iter_xO_value. replace (ex - ez)%Z with (Zpos d) by lia. reflexivity.
Qed.

(** What validity says of a finite binary64 number. *)
Lemma valid_finite_bounds : forall s m e,
  SpecFloat.valid_binary prec emax (S754_finite s m e) = true ->
  (Zpos m < 2 ^ 53 /\ -1074 <= e /\ (-1074 < e -> 2 ^ 52 <= Zpos m))%Z.
Proof.
  intros s m e H. cbn in H. unfold bounded, canonical_mantissa in H.
  apply andb_true_iff in H. destruct H as [Hc _]. apply Z.eqb_eq in Hc.
  rewrite fexp_64 in Hc. pose proof (digits2_bounds m) as [Hlo Hhi].
  assert (Hd : (Zpos (digits2_pos m) <= 53)%Z) by lia.
  split; [|split].
  - eapply Z.lt_le_trans; [exact Hhi|]. apply Z.pow_le_mono_r; lia.
  - lia.
  - intros He. assert (Hd53 : Zpos (digits2_pos m) = 53%Z) by lia.
    rewrite Hd53 in Hlo. exact Hlo.
Qed.

(** The order of two valid finite numbers is the order of their mantissas
    brought to the smaller exponent. *)
Lemma SFcompare_lt_aligned : forall sx mx ex sy my ey,
  SpecFloat.valid_binary prec emax (S754_finite sx mx ex) = true ->
  SpecFloat.valid_binary prec emax (S754_finite sy my ey) = true ->
  SFcompare (S754_finite sx mx ex) (S754_finite sy my ey) = Some Lt ->
  let ez := Z.min ex ey in
  (cond_Zopp sx (Zpos (fst (shl_align mx ex ez)))
   < cond_Zopp sy (Zpos (fst (shl_align my ey ez))))%Z.
Proof.
  intros sx mx ex sy my ey Hx Hy Hc ez.
  rewrite !shl_align_value by (unfold ez; lia).
  apply valid_finite_bounds in Hx, Hy.
  destruct Hx as (Hx1 & Hx2 & Hx3), Hy as (Hy1 & Hy2 & Hy3).
  assert (Hpx : (0 < 2 ^ (ex - ez))%Z) by (apply Z.pow_pos_nonneg; unfold ez; lia).
  assert (Hpy : (0 < 2 ^ (ey - ez))%Z) by (apply Z.pow_pos_nonneg; unfold ez; lia).
  assert (Hbig : forall a b, (a < b)%Z -> (2 <= 2 ^ (b - a))%Z).
  { intros a b Hab. change 2%Z with (2 ^ 1)%Z at 1. apply Z.pow_le_mono_r; lia. }
  cbn [SFcompare] in Hc.
  destruct sx, sy; cbn [cond_Zopp]; try discriminate Hc; try lia.
  - destruct (Z.compare_spec ex ey) as [E|E|E]; try discriminate Hc.
    + subst ey. unfold ez in *. rewrite Z.min_id, Z.sub_diag in *. cbn [Z.pow].
      change (Pos.compare_cont Eq mx my) with (Pos.compare mx my) in Hc.
      destruct (Pos.compare_spec mx my) as [E|E|E]; cbn in Hc; try discriminate Hc. lia.
    + assert (Hez : ez = ey) by (unfold ez; lia). rewrite Hez in *.
      rewrite Z.sub_diag. cbn [Z.pow]. specialize (Hbig ey ex E).
      specialize (Hx3 ltac:(lia)). nia.
  - destruct (Z.compare_spec ex ey) as [E|E|E]; try discriminate Hc.
    + subst ey. unfold ez in *. rewrite Z.min_id, Z.sub_diag in *. cbn [Z.pow].
      change (Pos.compare_cont Eq mx my) with (Pos.compare mx my) in Hc.
      destruct (Pos.compare_spec mx my) as [E|E|E]; cbn in Hc; try discriminate Hc. lia.
    + assert (Hez : ez = ex) by (unfold ez; lia). rewrite Hez in *.
      rewrite Z.sub_diag. cbn [Z.pow]. specialize (Hbig ex ey E).
      specialize (Hy3 ltac:(lia)). nia.
Qed.

(** Rounding a non-negative mantissa gives no NaN and keeps the sign. *)
Lemma binary_round_aux_sign : forall s m e l, (0 <= m)%Z ->
  match binary_round_aux prec emax s m e l with
  | S754_zero s' | S754_infinity s' | S754_finite s' _ _ => s' = s
  | S754_nan => False
  end.
Proof.
  intros s m e l Hm. unfold binary_round_aux.
  pose proof (shr_fexp_bounds m e l Hm) as [Hm1 _].
  destruct (shr_fexp prec emax m e l) as [mrs1 e1]. cbn [fst] in Hm1.
  pose proof (round_nearest_even_bounds (shr_m mrs1) (loc_of_shr_record mrs1)) as Hr.
  pose proof (shr_fexp_bounds (round_nearest_even (shr_m mrs1) (loc_of_shr_record mrs1))
                e1 loc_Exact ltac:(lia)) as [Hm2 _].
  destruct (shr_fexp prec emax _ e1 loc_Exact) as [mrs2 e2]. cbn [fst] in Hm2.
  destruct (shr_m mrs2) as [|p|p]; [reflexivity| |lia].
  destruct (_ <=? _)%Z; reflexivity.
Qed.

(** The difference of a smaller and a larger number is not positive. *)
Lemma SFsub_lt_not_positive : forall x y,
  SpecFloat.valid_binary prec emax x = true -> SpecFloat.valid_binary prec emax y = true ->
  SFltb x y = true -> not_positive (SFsub prec emax x y).
Proof.
  intros x y Hx Hy Hlt. unfold SFltb in Hlt.
  destruct (SFcompare x y) as [[| |]|] eqn:Hc; try discriminate Hlt. clear Hlt.
  destruct x as [sx|sx| |sx mx ex]; destruct y as [sy|sy| |sy my ey];
    cbn in Hc; try discriminate Hc;
    try (destruct sx; try discriminate Hc); try (destruct sy; try discriminate Hc);
    try (cbn; auto; fail).
  all: pose proof (SFcompare_lt_aligned _ _ _ _ _ _ Hx Hy Hc) as Hlt; cbn zeta in Hlt;
    unfold SFsub, binary_normalize;
    match goal with |- not_positive (match ?d with _ => _ end) => destruct d as [|p|p] eqn:E end;
    try lia.
  all: unfold binary_round; destruct (shl_align p _ _) as [mz ez];
    pose proof (binary_round_aux_sign true (Zpos mz) ez loc_Exact ltac:(lia)) as Hs;
    destruct (binary_round_aux prec emax true (Zpos mz) ez loc_Exact); cbn; auto.
Qed.

(** Dividing by a positive finite number keeps what is not positive so. *)
Lemma SFdiv_not_positive : forall x m e,
  not_positive x -> not_positive (SFdiv prec emax x (S754_finite false m e)).
Proof.
  intros [s|s| |s mx ex] m e H; cbn in H; try contradiction.
  - cbn. exact Logic.I.
  - subst s. reflexivity.
  - subst s. unfold SFdiv, SFdiv_core_binary.
    set (m' := match (ex - e - _)%Z with Z0 => _ | Zpos _ => _ | Zneg _ => _ end).
    assert (Hm' : (0 <= m')%Z).
    { unfold m'. destruct (ex - e - _)%Z; try lia. apply Z.shiftl_nonneg. lia. }
    pose proof (Z.div_pos m' (Zpos m) Hm' ltac:(lia)) as Hq. unfold Z.div in Hq.
    destruct (Z.div_eucl m' (Zpos m)) as [q r].
    pose proof (binary_round_aux_sign (xorb true false) q
                  (Z.min (fexp prec emax (Zdigits2 (Zpos mx) + ex - (Zdigits2 (Zpos m) + e)))
                     (ex - e)) (new_location (Zpos m) r) Hq) as Hs.
    destruct (binary_round_aux _ _ _ _ _ _); cbn in *; auto.
Qed.

(** Rounding leaves a canonical mantissa as it is. *)
Lemma binary_round_aux_canonical : forall s m e,
  SpecFloat.valid_binary prec emax (S754_finite s m e) = true ->
  binary_round_aux prec emax s (Zpos m) e loc_Exact = S754_finite s m e.
Proof.
  intros s m e Hv. cbn in Hv. unfold bounded, canonical_mantissa in Hv.
  apply andb_true_iff in Hv. destruct Hv as [Hc Hb]. apply Z.eqb_eq in Hc.
  unfold binary_round_aux.
  assert (Hshift : shr_fexp prec emax (Zpos m) e loc_Exact
                   = (Build_shr_record (Zpos m) false false, e)).
  { unfold shr_fexp. cbn [Zdigits2]. rewrite Hc, Z.sub_diag. reflexivity. }
  rewrite Hshift. cbn [shr_m loc_of_shr_record round_nearest_even].
  rewrite Hshift. cbn [shr_m]. rewrite Hb. reflexivity.
Qed.

(** [float(z)] for [0 < z < 2 ** 53] is exact: a valid positive finite
    number. *)
Lemma float_of_int_small : forall p, (Zpos p < 2 ^ 53)%Z ->
  exists m e,
    binary_normalize prec emax (Zpos p) 0 false = S754_finite false m e /\
    SpecFloat.valid_binary prec emax (S754_finite false m e) = true /\
    (e <= 0 /\ Zpos m = Zpos p * 2 ^ (- e))%Z.
Proof.
  intros p Hp. pose proof (digits2_bounds p) as [Hlo _].
  assert (Hd : (Zpos (digits2_pos p) <= 53)%Z).
  { destruct (Z_le_gt_dec (Zpos (digits2_pos p)) 53) as [|Hgt]; [assumption|exfalso].
    assert (2 ^ 53 <= 2 ^ (Zpos (digits2_pos p) - 1))%Z by (apply Z.pow_le_mono_r; lia).
    lia. }
  unfold binary_normalize, binary_round. rewrite fexp_64.
  replace (Z.max (Zpos (digits2_pos p) + 0 - 53) (-1074))
    with (Zpos (digits2_pos p) - 53)%Z by lia.
  assert (Hal : exists mz,
            shl_align p 0 (Zpos (digits2_pos p) - 53) = (mz, (Zpos (digits2_pos p) - 53)%Z) /\
            Zpos (digits2_pos mz) = 53%Z /\
            (Zpos mz = Zpos p * 2 ^ (- (Zpos (digits2_pos p) - 53)))%Z).
  { unfold shl_align.
    destruct (Zpos (digits2_pos p) - 53 - 0)%Z as [|d|d] eqn:E; try lia.
    - exists p. replace (Zpos (digits2_pos p) - 53)%Z with 0%Z by lia.
      split; [reflexivity|]. split; [lia|]. cbn. lia.
    - exists (Pos.iter xO p d). split; [reflexivity|].
      rewrite iter_xO_digits, iter_xO_value. split; [lia|]. f_equal. f_equal. lia. }
  destruct Hal as (mz & -> & Hdz & Hval).
  assert (Hv : SpecFloat.valid_binary prec emax
                 (S754_finite false mz (Zpos (digits2_pos p) - 53)) = true).
  { unfold SpecFloat.valid_binary, bounded, canonical_mantissa. rewrite fexp_64, Hdz.
    apply andb_true_iff. split; [apply Z.eqb_eq; lia|apply Z.leb_le].
    change (emax - prec)%Z with 971%Z. lia. }
  exists mz, (Zpos (digits2_pos p) - 53)%Z.
  split; [apply binary_round_aux_canonical, Hv|]. split; [exact Hv|]. split; [lia|exact Hval].
Qed.

Lemma not_positive_leb_zero : forall x, not_positive (Prim2SF x) -> (x <=? 0) = true.
Proof.
  intros x H. rewrite FloatAxioms.leb_spec. change (Prim2SF 0) with (S754_zero false).
  destruct (Prim2SF x) as [s|s| |s m e]; cbn in *; subst; try reflexivity. contradiction.
Qed.

(** X14: The constructor of [LinearLR], outcome by outcome.  It refuses, by its
    assertions, every [final_lr] that is not less than the optimizer's
    rate, an equal one and a NaN among them, and every [decay_steps] that
    is not positive.  For a lower [final_lr] and [decay_steps] between 1
    and [2 ** 53] it returns a scheduler with the counter at 0, the rate
    of the optimizer as initial rate, and [lr_delta] the rounded quotient
    of the rounded difference by [decay_steps], which is no NaN and not
    above zero. *)
Theorem LinearLR_init_outcome :
  forall V (optimizer : Optimizer.t V) (decay_steps : Z) (final_lr : float) (start_step : Z),
  let lr0 := Optimizer.lr optimizer in
  let r := LinearLR.__init__ optimizer decay_steps final_lr start_step in
  ((final_lr <? lr0) = false -> r = Raise AssertionError) /\
  (final_lr = lr0 -> r = Raise AssertionError) /\
  (is_nan final_lr = true \/ is_nan lr0 = true -> r = Raise AssertionError) /\
  ((decay_steps <= 0)%Z -> r = Raise AssertionError) /\
  ((final_lr <? lr0) = true -> (0 < decay_steps < 2 ^ 53)%Z ->
     exists d,
       float_of_int decay_steps = Ok d /\
       (exists m e, Prim2SF d = S754_finite false m e /\
                    (e <= 0 /\ Zpos m = decay_steps * 2 ^ (- e))%Z) /\
       r = Ok (LRScheduler.make lr0 0
                 (LinearLR.Params ((final_lr - lr0) / d) final_lr decay_steps start_step)) /\
       ((final_lr - lr0) / d <=? 0) = true) /\
  (forall self, r = Ok self ->
     (final_lr <? lr0) = true /\ (0 < decay_steps)%Z /\
     LRScheduler._t self = 0%Z /\ LRScheduler._initial_lr self = lr0 /\
     LinearLR._final_lr (LRScheduler.params self) = final_lr /\
     LinearLR._decay_steps (LRScheduler.params self) = decay_steps /\
     LinearLR._start_step (LRScheduler.params self) = start_step).
Proof.
  intros V optimizer decay_steps final_lr start_step lr0 r.
  assert (H1 : (final_lr <? lr0) = false -> r = Raise AssertionError).
  { intros H. unfold r, LinearLR.__init__. cbn zeta. unfold LRScheduler.get_current_lr.
    fold lr0. rewrite H. reflexivity. }
  split; [exact H1|]. split; [|split; [|split; [|split]]].
  - intros E. apply H1. rewrite E, FloatAxioms.ltb_spec. unfold SFltb.
    destruct (Prim2SF lr0) as [s|s| |s m e]; cbn; try reflexivity.
    + destruct s; reflexivity.
    + destruct s; rewrite Z.compare_refl;
        change (Pos.compare_cont Eq m m) with (Pos.compare m m);
        rewrite Pos.compare_refl; reflexivity.
  - intros H. apply H1. rewrite FloatAxioms.ltb_spec. unfold SFltb.
    destruct H as [H|H]; apply is_nan_SF in H; rewrite H;
      [reflexivity|destruct (Prim2SF final_lr); reflexivity].
  - intros H. unfold r, LinearLR.__init__. cbn zeta.
    destruct (negb (final_lr <? _)); [reflexivity|].
    destruct (Z.ltb_spec 0 decay_steps); [lia|reflexivity].
  - intros Hlt [Hd0 Hd]. destruct decay_steps as [|p|p]; try lia.
    destruct (float_of_int_small p Hd) as (m & e & Hn & Hv & Hval).
    exists (SF2Prim (S754_finite false m e)).
    assert (Hf : float_of_int (Zpos p) = Ok (SF2Prim (S754_finite false m e))).
    { unfold float_of_int. rewrite Hn. reflexivity. }
    assert (Hp : Prim2SF (SF2Prim (S754_finite false m e)) = S754_finite false m e)
      by (apply FloatAxioms.Prim2SF_SF2Prim, Hv).
    split; [exact Hf|]. split; [exists m, e; split; [exact Hp|exact Hval]|]. split.
    + unfold r, LinearLR.__init__. cbn zeta. unfold LRScheduler.get_current_lr.
      fold lr0. rewrite Hlt, Hf. reflexivity.
    + apply not_positive_leb_zero. rewrite FloatAxioms.div_spec, FloatAxioms.sub_spec, Hp.
      apply SFdiv_not_positive, SFsub_lt_not_positive; try apply Prim2SF_valid.
      rewrite <- FloatAxioms.ltb_spec. exact Hlt.
  - intros self Hr. unfold r, LinearLR.__init__ in Hr. cbn zeta in Hr.
    unfold LRScheduler.get_current_lr in Hr. fold lr0 in Hr.
    destruct (final_lr <? lr0); [|discriminate Hr]. cbn [negb] in Hr.
    destruct (Z.ltb_spec 0 decay_steps); [|discriminate Hr]. cbn [negb] in Hr.
    destruct (float_of_int decay_steps) as [d|e]; [|discriminate Hr].
    inversion Hr; subst. cbn. repeat split; try reflexivity. assumption.
Qed.

(** ** MultiStepLR: milestones that cannot be converted *)

Lemma comprehension_app_raise : forall (A B : Type) (f : A -> result B) pre x post ys e,
  comprehension f pre = Ok ys -> f x = Raise e ->
  comprehension f (pre ++ x :: post) = Raise e.
Proof.
  intros A B f. induction pre as [|a pre IH]; intros x post ys e Hpre Hx.
  - cbn. rewrite Hx. reflexivity.
  - cbn in *. destruct (f a) as [b|e']; [|discriminate Hpre].
    destruct (comprehension f pre) as [bs|e'] eqn:E; [|discriminate Hpre].
    rewrite (IH x post bs e eq_refl Hx). reflexivity.
Qed.

(** X15: The constructor converts the milestones with [int] one after the
    other before it checks anything: the first element that [int] refuses
    decides the exception, also in a list that is not increasing.  [None]
    gives [TypeError], a NaN [ValueError], an infinity [OverflowError];
    every other float is accepted and cut to an integer. *)
Theorem MultiStepLR_init_conversion_errors :
  forall V (optimizer : Optimizer.t V) (gamma : float),
  (forall pre x post zs e,
     comprehension int pre = Ok zs -> int x = Raise e ->
     MultiStepLR.__init__ optimizer (pre ++ x :: post) gamma = Raise e) /\
  int PyNone = Raise TypeError /\
  (forall f, is_nan f = true -> int (PyFloat f) = Raise ValueError) /\
  (forall f, is_infinity f = true -> int (PyFloat f) = Raise OverflowError) /\
  (forall f, is_finite f = true -> exists z, int (PyFloat f) = Ok z) /\
  (forall z, int (PyInt z) = Ok z).
Proof.
  intros V optimizer gamma. split; [|split; [|split; [|split; [|split]]]].
  - intros pre x post zs e Hpre Hx. unfold MultiStepLR.__init__.
    rewrite (comprehension_app_raise _ _ int pre x post zs e Hpre Hx). reflexivity.
  - reflexivity.
  - intros f H. apply is_nan_SF in H. cbn. unfold int_of_float. rewrite H. reflexivity.
  - intros f H. unfold is_infinity in H.
    rewrite FloatAxioms.eqb_spec, FloatAxioms.abs_spec in H.
    change (Prim2SF infinity) with (S754_infinity false) in H.
    cbn. unfold int_of_float.
    destruct (Prim2SF f) as [s|s| |s m e]; cbn in H; try discriminate H; reflexivity.
  - intros f H. apply is_finite_SF in H. cbn. unfold int_of_float.
    destruct H as [[s H]|(s & m & e & H)]; rewrite H; eauto.
  - reflexivity.
Qed.
